(** * CareerHunt knowledge-graph manager ([kg_manager.py])

    A shallow embedding of the knowledge-graph manager: the in-memory
    networkx graph [G] and the [embeddings] dictionary, the three files the
    module keeps on disk, the incremental insertion
    [add_node_with_neighbors], the full rebuild [nightly_retrain] and the
    polling loop that fires it.

    Conventions.
    - Python [dict]s are stdpp [gmap]s; [d.update(a)] is the left-biased
      union [a ∪ d].
    - Python [float]s and numpy [float64]s are Rocq's primitive binary64
      [float]s, so sums and quotients round exactly as they do in numpy.
    - Module-level state and the file system are threaded through an
      exception-and-state monad [M]; a raised exception keeps every
      mutation performed before it, as in Python. *)

From Stdlib Require Import Floats Ascii.
From stdpp Require Import gmap strings list fin_maps.

#[local] Set Warnings "-clear-no-such-hyp".


(** ** Python string helpers *)

Module Py.

(** [s.startswith(p)] *)
Fixpoint startswith (s p : string) {struct p} : bool :=
  match p with
  | EmptyString => true
  | String c p' =>
      match s with
      | EmptyString => false
      | String d s' => Ascii.eqb c d && startswith s' p'
      end
  end.

(** Characters removed by [str.strip()] in ASCII text: tab, line feed,
    vertical tab, form feed, carriage return, the four separators
    0x1c-0x1f, and the space. *)
Definition isspace (c : Ascii.ascii) : bool :=
  let n := Ascii.nat_of_ascii c in
  ((9 <=? n)%nat && (n <=? 13)%nat) || ((28 <=? n)%nat && (n <=? 31)%nat) || (n =? 32)%nat.

Fixpoint lstrip (s : string) : string :=
  match s with
  | EmptyString => EmptyString
  | String c r => if isspace c then lstrip r else s
  end.

(** [rstrip] keeps a character when something that is not white space
    follows it, or when it is not white space itself. *)
Fixpoint rstrip (s : string) : string :=
  match s with
  | EmptyString => EmptyString
  | String c r =>
      match rstrip r with
      | EmptyString => if isspace c then EmptyString else String c EmptyString
      | r' => String c r'
      end
  end.

(** [s.strip()] *)
Definition strip (s : string) : string := rstrip (lstrip s).

(** [s.split(sep)] for a one-character separator: the fields between
    the separators, empty fields included; the empty string splits into
    one empty field. *)
Fixpoint split (sep : Ascii.ascii) (s : string) : list string :=
  match s with
  | EmptyString => [EmptyString]
  | String c r =>
      if Ascii.eqb c sep then EmptyString :: split sep r
      else match split sep r with
           | f :: fs => String c f :: fs
           | [] => [String c EmptyString]
           end
  end.

End Py.

(** ** networkx: the undirected graph [nx.Graph] *)

Module Nx.

(** [_node] maps a node to its attribute dictionary and [_adj] maps a
    node to its neighbours, each with the attribute dictionary of the
    edge, which both directions share. *)
Record Graph : Type := mkGraph {
  g_node : gmap string (gmap string string);
  g_adj : gmap string (gmap string (gmap string string))
}.

(** [nx.Graph()] *)
Definition empty : Graph := {| g_node := ∅; g_adj := ∅ |}.

(** [n in G] *)
Definition has_node (g : Graph) (n : string) : bool :=
  bool_decide (is_Some (g_node g !! n)).

(** [G._adj[n]]; absent only when [n] is not a node. *)
Definition adj_of (g : Graph) (n : string) : gmap string (gmap string string) :=
  default ∅ (g_adj g !! n).

(** [G.has_edge(u, v)] *)
Definition has_edge (g : Graph) (u v : string) : bool :=
  bool_decide (is_Some (adj_of g u !! v)).

(** [G.add_node(n, **attr)]: a new node starts with [attr] and no
    neighbours; an existing node has its attributes updated. *)
Definition add_node (n : string) (attr : gmap string string) (g : Graph) : Graph :=
  match g_node g !! n with
  | None => {| g_node := <[n := attr]> (g_node g);
               g_adj := <[n := ∅]> (g_adj g) |}
  | Some d => {| g_node := <[n := attr ∪ d]> (g_node g);
                 g_adj := g_adj g |}
  end.

(** The first lines of [add_edge]: an endpoint that is not a node yet
    is created with no attribute at all. *)
Definition touch (n : string) (g : Graph) : Graph :=
  match g_node g !! n with
  | None => {| g_node := <[n := ∅]> (g_node g);
               g_adj := <[n := ∅]> (g_adj g) |}
  | Some _ => g
  end.

(** [G.add_edge(u, v, **attr)] *)
Definition add_edge (u v : string) (attr : gmap string string) (g : Graph) : Graph :=
  let g1 := touch v (touch u g) in
  let datadict := attr ∪ default ∅ (adj_of g1 u !! v) in
  let adj1 := <[u := <[v := datadict]> (adj_of g1 u)]> (g_adj g1) in
  let adj2 := <[v := <[u := datadict]> (default ∅ (adj1 !! v))]> adj1 in
  {| g_node := g_node g1; g_adj := adj2 |}.

(** [G.number_of_nodes()] *)
Definition number_of_nodes (g : Graph) : nat := size (g_node g).

(** [G.degree(n)]: the neighbours of [n], a self-loop counting twice. *)
Definition degree_of (n : string) (nbrs : gmap string (gmap string string)) : nat :=
  size nbrs + (if bool_decide (is_Some (nbrs !! n)) then 1 else 0).

Definition degree_sum (adj : gmap string (gmap string (gmap string string))) : nat :=
  map_fold (λ n nbrs acc, degree_of n nbrs + acc) 0 adj.

(** [G.number_of_edges()], that is [G.size()]: half the degree sum. *)
Definition number_of_edges (g : Graph) : nat := degree_sum (g_adj g) / 2.

(** [G.number_of_edges(u, v)]: a simple graph has the edge once or not
    at all. *)
Definition number_of_edges_between (g : Graph) (u v : string) : nat :=
  if has_edge g u v then 1 else 0.

(** [G.nodes[n].get(key)] *)
Definition node_attr (g : Graph) (n key : string) : option string :=
  g_node g !! n ≫= (λ d, d !! key).

(** [G.edges[u, v].get(key)] *)
Definition edge_attr (g : Graph) (u v key : string) : option string :=
  adj_of g u !! v ≫= (λ d, d !! key).

End Nx.

(** ** numpy: the mean of a stack of vectors *)

Module Np.

(** The number of rows as a [float64], by which numpy divides the sum. *)
Definition of_count (k : nat) : float :=
  PrimFloat.of_uint63 (Uint63.of_Z (Z.of_nat k)).

(** Row plus row, component by component. *)
Definition vadd (a b : list float) : list float := zip_with PrimFloat.add a b.

(** [np.array(rows).mean(axis=0).tolist()].  The rows are added from
    the first one on and each sum is divided by the number of rows.
    Rows of different lengths do not make a matrix: numpy raises, which
    is [None] here, as is the mean of no row at all, which is not a
    vector. *)
Definition mean_axis0 (rows : list (list float)) : option (list float) :=
  match rows with
  | [] => None
  | r :: rs =>
      if forallb (λ r', Nat.eqb (length r') (length r)) rs
      then Some (map (λ s, PrimFloat.div s (of_count (length rows))) (foldl vadd r rs))
      else None
  end.

End Np.

(** ** The state: module globals and files *)

(** The exceptions the module can let escape. *)
Inductive exn : Type :=
| ValueError (msg : string)
| OSError (path : string)
| TrainingError.

Inductive result (A : Type) : Type :=
| Ok (a : A)
| Raise (e : exn).
Arguments Ok {A} a.
Arguments Raise {A} e.

(** A row of [jobs.csv] as [iterrows] yields it, each cell as the text
    the f-strings and [split] see. *)
Record JobRow : Type := mkJobRow {
  job_id : string;
  title : string;
  company : string;
  required_skills : string
}.

(** What the next write to a file does: it succeeds, or [open] raises
    and the file stays as it was, or the file is opened (and so
    truncated) and the dump raises, which leaves nothing loadable. *)
Inductive io_outcome : Type := IoOk | IoFailOpen | IoFailWrite.

(** [G] and [embeddings] are the module globals.  A file holds [None]
    when it is missing or cannot be loaded.  [rng] is the state of
    numpy's global generator and [faults] lists the outcomes of the
    coming file writes, in order; past its end every write succeeds. *)
Record World : Type := mkWorld {
  G : Nx.Graph;
  embeddings : gmap string (list float);
  kg_file : option Nx.Graph;                          (* careerhunt_kg.gpickle *)
  emb_file : option (gmap string (list float));       (* embeddings.json *)
  log_file : option (list (string * string));         (* new_nodes_log.json *)
  jobs_csv : option (list JobRow);                    (* jobs.csv *)
  rng : nat;
  faults : list io_outcome
}.

Definition set_G (g : Nx.Graph) (w : World) : World :=
  mkWorld g (embeddings w) (kg_file w) (emb_file w) (log_file w) (jobs_csv w) (rng w) (faults w).
Definition set_embeddings (e : gmap string (list float)) (w : World) : World :=
  mkWorld (G w) e (kg_file w) (emb_file w) (log_file w) (jobs_csv w) (rng w) (faults w).
Definition set_kg_file (f : option Nx.Graph) (w : World) : World :=
  mkWorld (G w) (embeddings w) f (emb_file w) (log_file w) (jobs_csv w) (rng w) (faults w).
Definition set_emb_file (f : option (gmap string (list float))) (w : World) : World :=
  mkWorld (G w) (embeddings w) (kg_file w) f (log_file w) (jobs_csv w) (rng w) (faults w).
Definition set_log_file (f : option (list (string * string))) (w : World) : World :=
  mkWorld (G w) (embeddings w) (kg_file w) (emb_file w) f (jobs_csv w) (rng w) (faults w).
Definition set_rng (n : nat) (w : World) : World :=
  mkWorld (G w) (embeddings w) (kg_file w) (emb_file w) (log_file w) (jobs_csv w) n (faults w).
Definition set_faults (fs : list io_outcome) (w : World) : World :=
  mkWorld (G w) (embeddings w) (kg_file w) (emb_file w) (log_file w) (jobs_csv w) (rng w) fs.

(** Computations over the world that return or raise. *)
Definition M (A : Type) : Type := World → result A * World.

Definition ret {A} (a : A) : M A := λ w, (Ok a, w).
Definition raise {A} (e : exn) : M A := λ w, (Raise e, w).
Definition bind {A B} (m : M A) (k : A → M B) : M B :=
  λ w, match m w with
       | (Ok a, w') => k a w'
       | (Raise e, w') => (Raise e, w')
       end.
Definition gets {A} (f : World → A) : M A := λ w, (Ok (f w), w).
Definition modify (f : World → World) : M unit := λ w, (Ok tt, f w).

(** stdpp's [x ← m; k] and [m;; k] sequence such computations. *)
#[global] Instance M_ret : MRet M := @ret.
#[global] Instance M_bind : MBind M := λ A B k m, bind m k.

(** How a run ended. *)
Definition succeeded {A} (r : result A * World) : bool :=
  match r.1 with Ok _ => true | Raise _ => false end.

(** ** File access *)

Definition NEW_NODES_FILE : string := "new_nodes_log.json".
Definition KG_FILE : string := "careerhunt_kg.gpickle".
Definition EMBEDDINGS_FILE : string := "embeddings.json".
Definition JOBS_FILE : string := "jobs.csv".

(** Writing a file: the next outcome of [faults] decides. *)
Definition write_file (path : string) (store : option unit → World → World) : M unit :=
  λ w, match faults w with
       | [] => (Ok tt, store (Some tt) w)
       | IoOk :: fs => (Ok tt, store (Some tt) (set_faults fs w))
       | IoFailOpen :: fs => (Raise (OSError path), set_faults fs w)
       | IoFailWrite :: fs => (Raise (OSError path), store None (set_faults fs w))
       end.

(** [nx.write_gpickle(g, "careerhunt_kg.gpickle")] *)
Definition write_gpickle (g : Nx.Graph) : M unit :=
  write_file KG_FILE (λ ok, set_kg_file (ok ≫= λ _, Some g)).

(** [with open("embeddings.json", "w") as f: json.dump(e, f)] *)
Definition dump_embeddings (e : gmap string (list float)) : M unit :=
  write_file EMBEDDINGS_FILE (λ ok, set_emb_file (ok ≫= λ _, Some e)).

(** [with open(NEW_NODES_FILE, "w") as f: json.dump(log, f)] *)
Definition dump_log (log : list (string * string)) : M unit :=
  write_file NEW_NODES_FILE (λ ok, set_log_file (ok ≫= λ _, Some log)).

(** [with open(NEW_NODES_FILE, "r") as f: log = json.load(f)] *)
Definition load_log : M (list (string * string)) :=
  λ w, match log_file w with
       | Some log => (Ok log, w)
       | None => (Raise (OSError NEW_NODES_FILE), w)
       end.

(** [pd.read_csv("jobs.csv")] *)
Definition read_csv : M (list JobRow) :=
  λ w, match jobs_csv w with
       | Some rows => (Ok rows, w)
       | None => (Raise (OSError JOBS_FILE), w)
       end.

(** ** The libraries whose results the module only consumes *)

(** [np_random_normal s n] is the vector [np.random.normal(scale=0.01,
    size=n)] draws when the generator is in state [s]; [node2vec_fit g]
    is the trained model's vector table [model.wv] for the graph [g], or
    [None] when walking or fitting raises. *)
Class Libraries : Type := {
  np_random_normal : nat → nat → list float;
  node2vec_fit : Nx.Graph → option (string → list float)
}.

(** What the two libraries promise about sizes: [size=32] samples have 32
    components and [dimensions=32] vectors too. *)
Class LibrariesSized (L : Libraries) : Prop := {
  np_random_normal_length : ∀ s n, length (np_random_normal s n) = n;
  node2vec_fit_dimension : ∀ g wv n,
    node2vec_fit g = Some wv → length (wv n) = 32
}.

(** ** The manager *)

Section Manager.

Context `{L : Libraries}.

(** [log_new_node]: "Log added nodes so retrain knows what was added
    today." *)
Definition log_new_node (node_name node_type : string) : M unit :=
  log ← load_log;
  dump_log (log ++ [(node_name, node_type)]).

(** The body of the neighbour loop up to [add_edge]: a neighbour that
    is not in the graph is created with the type its prefix names, and
    is not created when the prefix is none of the three. *)
Definition ensure_neighbor (n : string) (g : Nx.Graph) : Nx.Graph :=
  if Nx.has_node g n then g
  else if Py.startswith n "job_" then Nx.add_node n {["type" := "job"]} g
  else if Py.startswith n "skill_" then Nx.add_node n {["type" := "skill"]} g
  else if Py.startswith n "company_" then Nx.add_node n {["type" := "company"]} g
  else g.

(** [for n in neighbors: ...; G.add_edge(node_name, n)] *)
Definition connect_neighbors (node_name : string) (neighbors : list string)
    (g : Nx.Graph) : Nx.Graph :=
  foldl (λ g n, Nx.add_edge node_name n ∅ (ensure_neighbor n g)) g neighbors.

(** [[n for n in neighbors if n in embeddings]] *)
Definition valid_neighbors (e : gmap string (list float)) (neighbors : list string)
    : list string :=
  filter (λ n, is_Some (e !! n)) neighbors.

(** [[embeddings[n] for n in valid_neighbors]] *)
Definition neighbor_vecs (e : gmap string (list float)) (valid : list string)
    : list (list float) :=
  omap (λ n, e !! n) valid.

(** [np.random.normal(scale=0.01, size=32).tolist()] *)
Definition draw_normal (size : nat) : M (list float) :=
  λ w, (Ok (np_random_normal (rng w) size), set_rng (S (rng w)) w).

(** "Build approximate embedding" *)
Definition approximate_embedding (neighbors : list string) : M (list float) :=
  e ← gets embeddings;
  match valid_neighbors e neighbors with
  | [] => draw_normal 32
  | valid =>
      match Np.mean_axis0 (neighbor_vecs e valid) with
      | Some avg_vec => mret avg_vec
      | None => raise (ValueError "inhomogeneous shape")
      end
  end.

(** [add_node_with_neighbors(node_name, node_type, neighbors)] *)
Definition add_node_with_neighbors (node_name node_type : string)
    (neighbors : list string) : M unit :=
  if negb (bool_decide (node_type ∈ ["job"; "skill"; "company"]))
  then raise (ValueError ("Invalid node type: " +:+ node_type))
  else
    modify (λ w, set_G (Nx.add_node node_name {["type" := node_type]} (G w)) w);;
    modify (λ w, set_G (connect_neighbors node_name neighbors (G w)) w);;
    vec ← approximate_embedding neighbors;
    modify (λ w, set_embeddings (<[node_name := vec]> (embeddings w)) w);;
    log_new_node node_name node_type;;
    g ← gets G;
    write_gpickle g;;
    e ← gets embeddings;
    dump_embeddings e.

(** The body of [for _, row in jobs.iterrows()]. *)
Definition add_skill (job_node : string) (g : Nx.Graph) (skill : string) : Nx.Graph :=
  let skill := Py.strip skill in
  let skill_node := "skill_" +:+ skill in
  Nx.add_edge job_node skill_node {["relation" := "REQUIRES_SKILL"]}
    (Nx.add_node skill_node {["type" := "skill"; "name" := skill]} g).

Definition add_row (g : Nx.Graph) (row : JobRow) : Nx.Graph :=
  let job_node := "job_" +:+ job_id row in
  let company_node := "company_" +:+ company row in
  let g := Nx.add_node job_node
             {["type" := "job"; "title" := title row; "company" := company row]} g in
  let g := Nx.add_node company_node {["type" := "company"; "name" := company row]} g in
  let g := Nx.add_edge job_node company_node {["relation" := "POSTED_BY"]} g in
  foldl (add_skill job_node) g (Py.split "," (required_skills row)).

(** [G_new] of [nightly_retrain]. *)
Definition build_graph (jobs : list JobRow) : Nx.Graph :=
  foldl add_row Nx.empty jobs.

(** [{node: model.wv[node].tolist() for node in G_new.nodes()}] *)
Definition embeddings_of (wv : string → list float) (g : Nx.Graph)
    : gmap string (list float) :=
  map_imap (λ node _, Some (wv node)) (Nx.g_node g).

(** [nightly_retrain()] *)
Definition nightly_retrain : M unit :=
  jobs ← read_csv;
  let G_new := build_graph jobs in
  match node2vec_fit G_new with
  | None => raise TrainingError
  | Some wv =>
      let new_embeddings := embeddings_of wv G_new in
      write_gpickle G_new;;
      dump_embeddings new_embeddings;;
      modify (λ w, set_embeddings new_embeddings (set_G G_new w));;
      dump_log []
  end.

(** [schedule.run_pending()], the job being due or not at this wake-up. *)
Definition run_pending (due : bool) : M unit :=
  if due then nightly_retrain else mret tt.

(** [while True: schedule.run_pending(); time.sleep(60)], over the
    wake-ups of a run: [ticks] tells for each one whether 01:23 has come
    round.  An exception that leaves [run_pending] leaves the loop, and
    with it the process. *)
Fixpoint main_loop (ticks : list bool) : M unit :=
  match ticks with
  | [] => mret tt
  | due :: later => run_pending due;; main_loop later
  end.

(** ** Readers *)

(** [G.nodes[id]] and [embeddings[id]] as a reader gets them. *)
Definition get_node (w : World) (id : string) : option (gmap string string) :=
  Nx.g_node (G w) !! id.
Definition get_embedding (w : World) (id : string) : option (list float) :=
  embeddings w !! id.

End Manager.

(** ** The body of [add_node_with_neighbors], part by part *)

Section Views.

Context `{L : Libraries}.

(** The graph a call leaves: the node added, then its neighbours
    connected. *)
Definition inserted_graph (node_name node_type : string) (neighbors : list string)
    (g : Nx.Graph) : Nx.Graph :=
  connect_neighbors node_name neighbors (Nx.add_node node_name {["type" := node_type]} g).

(** The vector of a call, or the exception of numpy, with the state the
    generator is left in: [approximate_embedding] as a function of the
    embeddings and the generator, the only things it reads. *)
Definition embedding_of_neighbors (e : gmap string (list float)) (s : nat)
    (neighbors : list string) : result (list float) * nat :=
  match valid_neighbors e neighbors with
  | [] => (Ok (np_random_normal s 32), S s)
  | valid =>
      match Np.mean_axis0 (neighbor_vecs e valid) with
      | Some avg_vec => (Ok avg_vec, s)
      | None => (Raise (ValueError "inhomogeneous shape"), s)
      end
  end.

(** The end of the body: the log entry, then the two files. *)
Definition log_and_persist (node_name node_type : string) : M unit :=
  log_new_node node_name node_type;;
  g ← gets G; write_gpickle g;;
  e ← gets embeddings; dump_embeddings e.

End Views.

(** ** The start of the module *)

(** The first lines of the module: the snapshot is loaded, and whatever
    goes wrong in loading either file leaves an empty graph and no
    embeddings, [except:] catching everything. *)
Definition load_store : M unit :=
  modify (λ w, match kg_file w, emb_file w with
               | Some g, Some e => set_embeddings e (set_G g w)
               | _, _ => set_embeddings ∅ (set_G Nx.empty w)
               end).

(** [if not os.path.exists(NEW_NODES_FILE): json.dump([], f)], with
    [log_exists] what [os.path.exists] answers. *)
Definition init_log (log_exists : bool) : M unit :=
  if log_exists then mret tt else dump_log [].

(** The module up to its function definitions. *)
Definition start (log_exists : bool) : M unit :=
  load_store;; init_log log_exists.

(** ** Sample libraries and stores *)

(** A generator that always answers with the same small sample and a
    trainer that gives every node the same vector, or fails. *)
Definition sample_libraries : Libraries := {|
  np_random_normal := λ _ n, replicate n 0.0078125%float;
  node2vec_fit := λ _, Some (λ _, replicate 32 0.5%float)
|}.

Definition failing_trainer : Libraries := {|
  np_random_normal := λ _ n, replicate n 0.0078125%float;
  node2vec_fit := λ _, None
|}.

(** The store of a first start: nothing in memory, no snapshot on disk,
    the log file created empty by the module, no dataset yet. *)
Definition fresh_world : World :=
  mkWorld Nx.empty ∅ None None (Some []) None 0 [].

(** A first start whose coming file writes end as [fs] says. *)
Definition faulty_world (fs : list io_outcome) : World := set_faults fs fresh_world.

(** A consistent empty snapshot on disk. *)
Definition saved_world (fs : list io_outcome) : World :=
  mkWorld Nx.empty ∅ (Some Nx.empty) (Some ∅) (Some []) None 0 fs.

(** A store after a rebuild that knew two skills. *)
Definition skilled_world : World :=
  let g := Nx.add_node "skill_Rust" {["type" := "skill"]}
             (Nx.add_node "skill_Go" {["type" := "skill"]} Nx.empty) in
  let e : gmap string (list float) :=
    <["skill_Go" := replicate 32 1%float]> (<["skill_Rust" := replicate 32 4%float]> ∅) in
  mkWorld g e (Some g) (Some e) (Some []) None 0 [].


(** A store in which two skills have embeddings of different lengths. *)
Definition ragged_world : World :=
  let e : gmap string (list float) :=
    <["skill_Go" := [1%float; 2%float]]> (<["skill_Rust" := [4%float]]> ∅) in
  mkWorld Nx.empty e (Some Nx.empty) (Some e) (Some []) None 0 [].

Definition three_jobs : list JobRow :=
  [ mkJobRow "1" "Backend developer" "Acme" "Go, Rust";
    mkJobRow "2" "Site reliability" "Acme" "Go";
    mkJobRow "3" "Data engineer" "Initech" "Python,Go , Python" ].

Definition world_with_jobs (rows : list JobRow) (w : World) : World :=
  mkWorld (G w) (embeddings w) (kg_file w) (emb_file w) (log_file w) (Some rows)
          (rng w) (faults w).

(** ** The elementwise mean, as the specification words it *)

(** Component [i] of every vector. *)
Definition column (i : nat) (vecs : list (list float)) : list float :=
  map (λ v, nth i v 0%float) vecs.

(** The sum of a non-empty list of floats, taken from the left. *)
Definition fsum (xs : list float) : float :=
  match xs with
  | [] => 0%float
  | x :: rest => foldl PrimFloat.add x rest
  end.

(** Component [i] of the mean of [vecs] is the sum of their components
    [i] over their number. *)
Definition elementwise_mean (dim : nat) (vecs : list (list float)) : list float :=
  map (λ i, PrimFloat.div (fsum (column i vecs)) (Np.of_count (length vecs))) (seq 0 dim).

(** The store-wide dimension. *)
Definition dimension_is (d : nat) (e : gmap string (list float)) : Prop :=
  map_Forall (λ _ v, length v = d) e.

(** The type an id's prefix names. *)
Definition prefix_type (n : string) : option string :=
  if Py.startswith n "job_" then Some "job"
  else if Py.startswith n "skill_" then Some "skill"
  else if Py.startswith n "company_" then Some "company"
  else None.

(** ** What the dataset names *)

Definition job_node (row : JobRow) : string := "job_" +:+ job_id row.
Definition company_node (row : JobRow) : string := "company_" +:+ company row.
Definition skill_node (skill : string) : string := "skill_" +:+ skill.

(** The skills of a job: the fields of [required_skills], stripped. *)
Definition skills_of (row : JobRow) : list string :=
  map Py.strip (Py.split "," (required_skills row)).

(** The distinct skills of a job, of a dataset, and its distinct
    companies. *)
Definition job_skills (row : JobRow) : gset string := list_to_set (skills_of row).
Definition all_skills (rows : list JobRow) : gset string :=
  list_to_set (rows ≫= skills_of).
Definition all_companies (rows : list JobRow) : gset string :=
  list_to_set (company <$> rows).

(** The node ids the dataset gives rise to. *)
Definition dataset_nodes (rows : list JobRow) : gset string :=
  list_to_set (job_node <$> rows) ∪ list_to_set (company_node <$> rows)
  ∪ list_to_set (skill_node <$> (rows ≫= skills_of)).

(** ** Invariants of graphs *)

(** What every graph built by the rebuild satisfies:
    the adjacency has an entry for each node and for nothing else, it is
    symmetric, and no node is its own neighbour. *)
Definition simple (g : Nx.Graph) : Prop :=
  dom (Nx.g_adj g) = dom (Nx.g_node g) ∧
  (∀ u v, v ∈ dom (Nx.adj_of g u) → u ∈ dom (Nx.adj_of g v)) ∧
  (∀ u, u ∉ dom (Nx.adj_of g u)).

(** Every node has the type of its prefix. *)
Definition typed_by_prefix (g : Nx.Graph) : Prop :=
  ∀ n d, Nx.g_node g !! n = Some d →
         is_Some (prefix_type n) ∧ d !! "type" = prefix_type n.

(** The edge between [u] and [v] is there, recorded in both directions
    with one attribute dictionary. *)
Definition linked (g : Nx.Graph) (u v : string) : Prop :=
  is_Some (Nx.g_node g !! u) ∧ is_Some (Nx.g_node g !! v) ∧
  ∃ d, Nx.adj_of g u !! v = Some d ∧ Nx.adj_of g v !! u = Some d.

(** Every edge joins a job to a node that is not a job. *)
Definition job_edges_only (g : Nx.Graph) : Prop :=
  ∀ u v, v ∈ dom (Nx.adj_of g u) →
    (prefix_type u = Some "job" ∧ prefix_type v ≠ Some "job") ∨
    (prefix_type v = Some "job" ∧ prefix_type u ≠ Some "job").

(** Company and skill nodes carry their type and their name and nothing
    else. *)
Definition named_nodes (g : Nx.Graph) : Prop :=
  ∀ x d, Nx.g_node g !! x = Some d →
    (∀ c, x = "company_" +:+ c → d = {["type" := "company"; "name" := c]}) ∧
    (∀ s, x = skill_node s → d = {["type" := "skill"; "name" := s]}).


(** [sep.join(fields)] for a one-character separator. *)
Fixpoint join (sep : Ascii.ascii) (fields : list string) : string :=
  match fields with
  | [] => EmptyString
  | [f] => f
  | f :: rest => f +:+ String sep (join sep rest)
  end.

(** The number of occurrences of a character. *)
Fixpoint occurrences (c : Ascii.ascii) (s : string) : nat :=
  match s with
  | EmptyString => 0
  | String d r => (if Ascii.eqb d c then 1 else 0) + occurrences c r
  end.

(** * Properties *)

(** ** Running computations *)

Lemma bind_Ok {A B} (m : M A) (k : A → M B) w b w' :
  (m ≫= k) w = (Ok b, w') →
  ∃ a w1, m w = (Ok a, w1) ∧ k a w1 = (Ok b, w').
Proof.
  unfold mbind, M_bind, bind. destruct (m w) as [[a|e] w1]; [eauto | discriminate].
Qed.

Lemma bind_run {A B} (m : M A) (k : A → M B) w a w1 :
  m w = (Ok a, w1) → (m ≫= k) w = k a w1.
Proof. unfold mbind, M_bind, bind. by intros ->. Qed.

Lemma bind_Raise {A B} (m : M A) (k : A → M B) w e w1 :
  m w = (Raise e, w1) → (m ≫= k) w = (Raise e, w1).
Proof. unfold mbind, M_bind, bind. by intros ->. Qed.

Lemma succeeded_Ok {A} (r : result A * World) :
  succeeded r = true → ∃ a, r = (Ok a, r.2).
Proof. destruct r as [[a|e] w]; [eauto | discriminate]. Qed.

(** A write that returns has stored the content and touched nothing but
    its file and the list of coming faults. *)
Lemma write_file_Ok path store w w' :
  write_file path store w = (Ok tt, w') →
  ∃ fs, w' = store (Some tt) (set_faults fs w).
Proof.
  unfold write_file. destruct w as [g e kf ef lf jc r fl]; simpl.
  destruct fl as [|[] fs]; intros [= <-]; eauto.
Qed.

(** With no fault planned, a write returns. *)
Lemma write_file_no_fault path store w :
  faults w = [] → write_file path store w = (Ok tt, store (Some tt) w).
Proof. unfold write_file. by intros ->. Qed.

Lemma load_log_Ok w log w' :
  load_log w = (Ok log, w') → log_file w = Some log ∧ w' = w.
Proof. unfold load_log. destruct (log_file w); intros [= <- <-]; auto. Qed.

Lemma read_csv_Ok w rows w' :
  read_csv w = (Ok rows, w') → jobs_csv w = Some rows ∧ w' = w.
Proof. unfold read_csv. destruct (jobs_csv w); intros [= <- <-]; auto. Qed.

(** Inverts a run that returned, step by step. *)
Ltac run_inv H :=
  repeat match type of H with
  | (_ ≫= _) _ = (Ok _, _) =>
      let a := fresh "a" in let w1 := fresh "w" in
      let H1 := fresh "Hrun" in
      apply bind_Ok in H as (a & w1 & H1 & H);
      try match type of a with unit => destruct a end
  end.

(** Runs the steps that only read or update the world. *)
Ltac step_inv :=
  repeat match goal with
  | H : modify _ _ = (Ok _, _) |- _ => unfold modify in H; simplify_eq H; intros <-
  | H : gets _ _ = (Ok _, _) |- _ => unfold gets in H; simplify_eq H; intros <- <-
  | H : mret _ _ = (Ok _, _) |- _ =>
      unfold mret, M_ret, ret in H; simplify_eq H; intros <- <-
  end.

(** ** networkx facts *)

Section GraphFacts.

Implicit Types (g : Nx.Graph) (u v n m : string) (a d : gmap string string).

Lemma touch_node_Some g n m d :
  Nx.g_node g !! m = Some d → Nx.g_node (Nx.touch n g) !! m = Some d.
Proof.
  unfold Nx.touch. destruct (Nx.g_node g !! n) eqn:E; [done|]. simpl.
  intros Hm. rewrite lookup_insert_ne; [done | congruence].
Qed.

Lemma touch_node_ne g n m :
  n ≠ m → Nx.g_node (Nx.touch n g) !! m = Nx.g_node g !! m.
Proof.
  intros. unfold Nx.touch. destruct (Nx.g_node g !! n); [done|]. simpl.
  by rewrite lookup_insert_ne.
Qed.

Lemma touch_present g n :
  is_Some (Nx.g_node g !! n) → Nx.touch n g = g.
Proof. intros [d Hd]. unfold Nx.touch. by rewrite Hd. Qed.

Lemma touch_adj_ne g n m :
  n ≠ m → Nx.adj_of (Nx.touch n g) m = Nx.adj_of g m.
Proof.
  intros. unfold Nx.touch, Nx.adj_of. destruct (Nx.g_node g !! n); [done|]. simpl.
  by rewrite lookup_insert_ne.
Qed.

Lemma touch_adj_present g n m :
  is_Some (Nx.g_node g !! m) → Nx.adj_of (Nx.touch n g) m = Nx.adj_of g m.
Proof.
  intros [d Hd]. destruct (decide (n = m)) as [->|Hne].
  - rewrite touch_present; eauto.
  - by apply touch_adj_ne.
Qed.

(** [add_edge] keeps every node there is, attributes included. *)
Lemma add_edge_node_Some g u v a m d :
  Nx.g_node g !! m = Some d → Nx.g_node (Nx.add_edge u v a g) !! m = Some d.
Proof. intros. unfold Nx.add_edge. simpl. by do 2 apply touch_node_Some. Qed.

(** It creates no node but its endpoints. *)
Lemma add_edge_node_ne g u v a m :
  u ≠ m → v ≠ m → Nx.g_node (Nx.add_edge u v a g) !! m = Nx.g_node g !! m.
Proof.
  intros. unfold Nx.add_edge. simpl. by rewrite !touch_node_ne.
Qed.

(** A missing endpoint is created without attributes. *)
Lemma add_edge_node_created g u v a :
  Nx.g_node g !! v = None → u ≠ v →
  Nx.g_node (Nx.add_edge u v a g) !! v = Some ∅.
Proof.
  intros Hv Hne. unfold Nx.add_edge. simpl.
  unfold Nx.touch at 1. rewrite touch_node_ne by done. rewrite Hv. simpl.
  by rewrite lookup_insert_eq.
Qed.

Lemma add_edge_endpoints g u v a :
  is_Some (Nx.g_node (Nx.add_edge u v a g) !! u) ∧
  is_Some (Nx.g_node (Nx.add_edge u v a g) !! v).
Proof.
  unfold Nx.add_edge. simpl.
  assert (Hu : is_Some (Nx.g_node (Nx.touch u g) !! u)).
  { unfold Nx.touch. destruct (Nx.g_node g !! u) eqn:E; [by rewrite E|].
    simpl. rewrite lookup_insert_eq. eauto. }
  split.
  - destruct Hu as [d Hd]. exists d. by apply touch_node_Some.
  - unfold Nx.touch at 1. destruct (Nx.g_node (Nx.touch u g) !! v) eqn:E.
    + by rewrite E.
    + simpl. rewrite lookup_insert_eq. eauto.
Qed.

(** The neighbours of the first endpoint after [add_edge]. *)
Lemma add_edge_adj_dom g u v a :
  dom (Nx.adj_of (Nx.add_edge u v a g) u) =
  {[v]} ∪ dom (Nx.adj_of (Nx.touch v (Nx.touch u g)) u).
Proof.
  unfold Nx.add_edge. set (g1 := Nx.touch v (Nx.touch u g)).
  unfold Nx.adj_of at 1. simpl. destruct (decide (u = v)) as [->|Hne].
  - rewrite lookup_insert_eq. simpl. rewrite lookup_insert_eq. simpl.
    rewrite !dom_insert_L. set_solver.
  - rewrite lookup_insert_ne by done. rewrite lookup_insert_eq. simpl.
    by rewrite dom_insert_L.
Qed.

Lemma add_edge_has_edge g u v a : Nx.has_edge (Nx.add_edge u v a g) u v = true.
Proof.
  unfold Nx.has_edge. apply bool_decide_eq_true. apply elem_of_dom.
  rewrite add_edge_adj_dom. set_solver.
Qed.

(** Other nodes' neighbours are untouched. *)
Lemma add_edge_adj_ne g u v a m :
  u ≠ m → v ≠ m → Nx.adj_of (Nx.add_edge u v a g) m = Nx.adj_of g m.
Proof.
  intros. unfold Nx.add_edge. unfold Nx.adj_of at 1. simpl.
  rewrite !lookup_insert_ne by done.
  change (Nx.adj_of (Nx.touch v (Nx.touch u g)) m = Nx.adj_of g m).
  by rewrite !touch_adj_ne.
Qed.

Lemma add_node_node_ne g n a m :
  n ≠ m → Nx.g_node (Nx.add_node n a g) !! m = Nx.g_node g !! m.
Proof.
  intros. unfold Nx.add_node. destruct (Nx.g_node g !! n); simpl;
    by rewrite lookup_insert_ne.
Qed.

Lemma add_node_node_eq g n a :
  Nx.g_node (Nx.add_node n a g) !! n = Some (a ∪ default ∅ (Nx.g_node g !! n)).
Proof.
  unfold Nx.add_node. destruct (Nx.g_node g !! n) eqn:E; simpl;
    rewrite lookup_insert_eq; [done|]. by rewrite (right_id_L ∅ (∪)).
Qed.

Lemma add_node_adj_ne g n a m :
  n ≠ m → Nx.adj_of (Nx.add_node n a g) m = Nx.adj_of g m.
Proof.
  intros. unfold Nx.add_node, Nx.adj_of. destruct (Nx.g_node g !! n); simpl;
    [done|]. by rewrite lookup_insert_ne.
Qed.

Lemma add_node_present g n a :
  is_Some (Nx.g_node g !! n) → Nx.g_adj (Nx.add_node n a g) = Nx.g_adj g.
Proof. intros [d Hd]. unfold Nx.add_node. by rewrite Hd. Qed.

Lemma touch_dom g n : dom (Nx.g_node (Nx.touch n g)) = {[n]} ∪ dom (Nx.g_node g).
Proof.
  unfold Nx.touch. destruct (Nx.g_node g !! n) eqn:E; simpl.
  - apply elem_of_dom_2 in E. set_solver.
  - by rewrite dom_insert_L.
Qed.

Lemma add_node_dom g n a :
  dom (Nx.g_node (Nx.add_node n a g)) = {[n]} ∪ dom (Nx.g_node g).
Proof. unfold Nx.add_node. destruct (Nx.g_node g !! n); simpl; by rewrite dom_insert_L. Qed.

Lemma add_edge_dom g u v a :
  dom (Nx.g_node (Nx.add_edge u v a g)) = {[u; v]} ∪ dom (Nx.g_node g).
Proof. unfold Nx.add_edge. simpl. rewrite !touch_dom. set_solver. Qed.

(** *** Simple graphs and the degree sum *)

Lemma simple_empty : simple Nx.empty.
Proof.
unfold simple, Nx.adj_of, Nx.empty. simpl. split; [done|].
split; intros u; rewrite ?lookup_empty; simpl; rewrite dom_empty_L; set_solver.
Qed.

Lemma simple_adj_lookup g n :
  simple g → is_Some (Nx.g_node g !! n) → Nx.g_adj g !! n = Some (Nx.adj_of g n).
Proof.
intros (Hdom & _) Hn. apply elem_of_dom in Hn. rewrite <- Hdom in Hn.
apply elem_of_dom in Hn as [nbrs Hnbrs]. unfold Nx.adj_of. by rewrite Hnbrs.
Qed.

Lemma simple_adj_absent g n :
  simple g → Nx.g_node g !! n = None → Nx.g_adj g !! n = None.
Proof.
intros (Hdom & _) Hn. apply not_elem_of_dom. rewrite Hdom. by apply not_elem_of_dom.
Qed.

Lemma degree_sum_insert_new (adj : gmap string (gmap string (gmap string string))) n nbrs :
  adj !! n = None →
  Nx.degree_sum (<[n := nbrs]> adj) = Nx.degree_of n nbrs + Nx.degree_sum adj.
Proof.
intros Hn. unfold Nx.degree_sum. rewrite map_fold_insert_L; [done| |done].
intros. lia.
Qed.

Lemma degree_sum_insert_old (adj : gmap string (gmap string (gmap string string)))
    n nbrs old :
  adj !! n = Some old →
  Nx.degree_sum (<[n := nbrs]> adj) + Nx.degree_of n old
  = Nx.degree_of n nbrs + Nx.degree_sum adj.
Proof.
intros Hn. rewrite <- (insert_delete_eq adj n nbrs).
rewrite <- (insert_id adj n old Hn) at 2. rewrite <- (insert_delete_eq adj n old).
rewrite !degree_sum_insert_new by apply lookup_delete_eq. lia.
Qed.

Lemma degree_of_insert_new n nbrs v d :
  n ≠ v → nbrs !! v = None →
  Nx.degree_of n (<[v := d]> nbrs) = S (Nx.degree_of n nbrs).
Proof.
intros Hne Hv. unfold Nx.degree_of.
rewrite map_size_insert_None by done. rewrite lookup_insert_ne by done. lia.
Qed.

Lemma degree_of_insert_old n nbrs v d :
  n ≠ v → is_Some (nbrs !! v) →
  Nx.degree_of n (<[v := d]> nbrs) = Nx.degree_of n nbrs.
Proof.
intros Hne Hv. unfold Nx.degree_of.
rewrite map_size_insert_Some by done. rewrite lookup_insert_ne by done. lia.
Qed.

Lemma add_node_adj_of g n a m :
  simple g → Nx.adj_of (Nx.add_node n a g) m = Nx.adj_of g m.
Proof.
intros Hg. unfold Nx.add_node. destruct (Nx.g_node g !! n) eqn:E; simpl; [done|].
unfold Nx.adj_of. simpl. destruct (decide (n = m)) as [<-|Hne].
- by rewrite lookup_insert_eq, (simple_adj_absent g n).
- by rewrite lookup_insert_ne.
Qed.

Lemma add_node_adj_dom g n a :
  simple g → dom (Nx.g_adj (Nx.add_node n a g)) = {[n]} ∪ dom (Nx.g_adj g).
Proof.
intros Hg. unfold Nx.add_node. destruct (Nx.g_node g !! n) eqn:E; simpl.
- destruct Hg as [-> _]. apply elem_of_dom_2 in E. set_solver.
- by rewrite dom_insert_L.
Qed.

Lemma add_node_simple g n a : simple g → simple (Nx.add_node n a g).
Proof.
intros Hg. destruct (Hg) as (Hdom & Hsym & Hloop). split; [|split].
- rewrite add_node_adj_dom, add_node_dom by done. by rewrite Hdom.
- intros u v. rewrite !add_node_adj_of by done. apply Hsym.
- intros u. rewrite add_node_adj_of by done. apply Hloop.
Qed.

Lemma add_node_degree_sum g n a :
  simple g → Nx.degree_sum (Nx.g_adj (Nx.add_node n a g)) = Nx.degree_sum (Nx.g_adj g).
Proof.
intros Hg. unfold Nx.add_node. destruct (Nx.g_node g !! n) eqn:E; simpl; [done|].
rewrite degree_sum_insert_new by by apply simple_adj_absent.
unfold Nx.degree_of. by rewrite map_size_empty, lookup_empty.
Qed.

(** [add_edge] between two nodes of the graph. *)
Lemma add_edge_adj_present g u v a :
  is_Some (Nx.g_node g !! u) → is_Some (Nx.g_node g !! v) → u ≠ v →
  Nx.g_adj (Nx.add_edge u v a g)
  = let d := a ∪ default ∅ (Nx.adj_of g u !! v) in
    <[v := <[u := d]> (Nx.adj_of g v)]> (<[u := <[v := d]> (Nx.adj_of g u)]> (Nx.g_adj g)).
Proof.
intros Hu Hv Hne. unfold Nx.add_edge.
rewrite (touch_present g u), (touch_present g v) by done. simpl.
by rewrite lookup_insert_ne.
Qed.

Lemma add_edge_adj_of g u v a m :
  is_Some (Nx.g_node g !! u) → is_Some (Nx.g_node g !! v) → u ≠ v →
  Nx.adj_of (Nx.add_edge u v a g) m
  = let d := a ∪ default ∅ (Nx.adj_of g u !! v) in
    if decide (m = v) then <[u := d]> (Nx.adj_of g v)
    else if decide (m = u) then <[v := d]> (Nx.adj_of g u)
    else Nx.adj_of g m.
Proof.
intros Hu Hv Hne. unfold Nx.adj_of at 1. rewrite add_edge_adj_present by done. simpl.
destruct (decide (m = v)) as [->|Hmv]; [by rewrite lookup_insert_eq|].
rewrite lookup_insert_ne by done.
destruct (decide (m = u)) as [->|Hmu]; [by rewrite lookup_insert_eq|].
by rewrite lookup_insert_ne.
Qed.

Lemma add_edge_simple g u v a :
  simple g → is_Some (Nx.g_node g !! u) → is_Some (Nx.g_node g !! v) → u ≠ v →
  simple (Nx.add_edge u v a g).
Proof.
intros Hg Hu Hv Hne. destruct (Hg) as (Hdom & Hsym & Hloop). split; [|split].
- rewrite add_edge_adj_present, add_edge_dom by done. simpl.
  rewrite !dom_insert_L, Hdom. apply elem_of_dom in Hu, Hv. set_solver.
- intros x y. rewrite !add_edge_adj_of by done. simpl.
  pose proof (Hsym x y) as Hxy. clear Hdom Hsym Hloop Hg Hu Hv.
  repeat case_decide; subst; rewrite ?dom_insert_L; set_solver.
- intros x. rewrite add_edge_adj_of by done. simpl.
  pose proof (Hloop x) as Hx. clear Hdom Hsym Hloop Hg Hu Hv.
  repeat case_decide; subst; rewrite ?dom_insert_L; set_solver.
Qed.

(** A new edge adds two to the degree sum, an edge there is adds
    nothing. *)
Lemma add_edge_degree_sum g u v a :
  simple g → is_Some (Nx.g_node g !! u) → is_Some (Nx.g_node g !! v) → u ≠ v →
  Nx.degree_sum (Nx.g_adj (Nx.add_edge u v a g))
  = Nx.degree_sum (Nx.g_adj g) + (if decide (v ∈ dom (Nx.adj_of g u)) then 0 else 2).
Proof.
intros Hg Hu Hv Hne. destruct (Hg) as (Hdom & Hsym & Hloop).
rewrite add_edge_adj_present by done. simpl.
set (d := a ∪ default ∅ (Nx.adj_of g u !! v)).
pose proof (degree_sum_insert_old (Nx.g_adj g) u (<[v := d]> (Nx.adj_of g u)) _
              (simple_adj_lookup g u Hg Hu)) as H1.
assert (Hv1 : <[u := <[v := d]> (Nx.adj_of g u)]> (Nx.g_adj g) !! v
              = Some (Nx.adj_of g v)).
{ rewrite lookup_insert_ne by done. by apply simple_adj_lookup. }
pose proof (degree_sum_insert_old _ v (<[u := d]> (Nx.adj_of g v)) _ Hv1) as H2.
case_decide as Hedge.
- assert (Hback := Hsym _ _ Hedge).
  apply elem_of_dom in Hedge, Hback.
  rewrite degree_of_insert_old in H1, H2 by done. lia.
- assert (Hback : u ∉ dom (Nx.adj_of g v)) by (intros H; by apply Hsym in H).
  apply not_elem_of_dom in Hedge, Hback.
  rewrite degree_of_insert_new in H1, H2 by done. lia.
Qed.

Lemma add_edge_attr g u v a key r :
  is_Some (Nx.g_node g !! u) → is_Some (Nx.g_node g !! v) → u ≠ v →
  a !! key = Some r → Nx.edge_attr (Nx.add_edge u v a g) u v key = Some r.
Proof.
intros Hu Hv Hne Ha. unfold Nx.edge_attr. rewrite add_edge_adj_of by done. simpl.
rewrite decide_False, decide_True by done. rewrite lookup_insert_eq. simpl.
by apply lookup_union_Some_l.
Qed.

End GraphFacts.

(** ** numpy facts *)

Section MeanFacts.

Implicit Types (r v : list float) (rows rs : list (list float)).

Lemma vadd_length a b : length b = length a → length (Np.vadd a b) = length a.
Proof. intros H. unfold Np.vadd. rewrite length_zip_with. lia. Qed.

Lemma foldl_vadd_length r rs :
  Forall (λ r', length r' = length r) rs → length (foldl Np.vadd r rs) = length r.
Proof.
  revert r. induction rs as [|r' rs IH]; intros r Hall; simpl; [done|].
  apply Forall_cons in Hall as [Hr' Hall].
  rewrite IH; rewrite vadd_length by done; [done|].
  eapply Forall_impl; [exact Hall|]. simpl. congruence.
Qed.

(** Component [i] of the sum of the rows is the sum of their
    components [i], from the first row on. *)
Lemma foldl_vadd_lookup r rs i :
  Forall (λ r', length r' = length r) rs → i < length r →
  foldl Np.vadd r rs !! i
  = Some (foldl PrimFloat.add (nth i r 0%float) (column i rs)).
Proof.
  revert r. induction rs as [|r' rs IH]; intros r Hall Hi; simpl.
  - destruct (lookup_lt_is_Some_2 r i Hi) as [x Hx].
    by rewrite Hx, (nth_lookup_Some _ _ 0%float _ Hx).
  - apply Forall_cons in Hall as [Hr' Hall].
    rewrite IH.
    + f_equal. f_equal. unfold Np.vadd.
      destruct (lookup_lt_is_Some_2 r i Hi) as [x Hx].
      destruct (lookup_lt_is_Some_2 r' i) as [y Hy]; [lia|].
      rewrite (nth_lookup_Some _ _ 0%float _ Hx), (nth_lookup_Some _ _ 0%float _ Hy).
      apply nth_lookup_Some. by rewrite lookup_zip_with, Hx, Hy.
    + rewrite vadd_length by done.
      eapply Forall_impl; [exact Hall|]. simpl. congruence.
    + by rewrite vadd_length.
Qed.

(** numpy's mean over the rows is the elementwise mean of the
    specification, whenever the rows have one and the same length. *)
Lemma mean_axis0_elementwise d rows :
  rows ≠ [] → Forall (λ r, length r = d) rows →
  Np.mean_axis0 rows = Some (elementwise_mean d rows).
Proof.
  destruct rows as [|r rs]; [done|]. intros _ Hall.
  apply Forall_cons in Hall as [Hr Hall].
  assert (Hall' : Forall (λ r', length r' = length r) rs).
  { eapply Forall_impl; [exact Hall|]. simpl. congruence. }
  unfold Np.mean_axis0.
  assert (forallb (λ r', Nat.eqb (length r') (length r)) rs = true) as ->.
  { apply forallb_forall. intros r' Hin. apply Nat.eqb_eq.
    rewrite Forall_forall in Hall'. apply Hall'. by apply list_elem_of_In. }
  f_equal. unfold elementwise_mean. apply list_eq. intros i.
  change (map ?f ?l) with (f <$> l). rewrite !list_lookup_fmap.
  destruct (decide (i < d)) as [Hi|Hi].
  - rewrite foldl_vadd_lookup by (done || lia).
    rewrite lookup_seq_lt by done. done.
  - rewrite lookup_seq_ge by lia.
    rewrite lookup_ge_None_2; [done|]. rewrite foldl_vadd_length by done. lia.
Qed.

Lemma elementwise_mean_length d rows : length (elementwise_mean d rows) = d.
Proof. unfold elementwise_mean. by rewrite length_map, length_seq. Qed.

End MeanFacts.

Section Properties.

Context `{L : Libraries}.

(** *** The embedding step *)

Lemma approximate_embedding_run neighbors w :
  approximate_embedding neighbors w =
  let r := embedding_of_neighbors (embeddings w) (rng w) neighbors in
  (r.1, set_rng r.2 w).
Proof.
  unfold approximate_embedding, embedding_of_neighbors, mbind, M_bind, bind, gets.
  simpl. destruct (valid_neighbors _ _) as [|n valid]; [done|].
  destruct (Np.mean_axis0 _); by destruct w.
Qed.

(** *** Logging *)

Lemma log_new_node_Ok node_name node_type w w' :
  log_new_node node_name node_type w = (Ok tt, w') →
  ∃ log fs, log_file w = Some log ∧
    w' = set_log_file (Some (log ++ [(node_name, node_type)])) (set_faults fs w).
Proof.
  unfold log_new_node. intros H. run_inv H.
  apply load_log_Ok in Hrun as [Hlog ->].
  apply write_file_Ok in H as [fs ->]. eauto.
Qed.

(** *** A run of [add_node_with_neighbors] that returns *)

Lemma add_node_with_neighbors_Ok node_name node_type neighbors w w' :
  add_node_with_neighbors node_name node_type neighbors w = (Ok tt, w') →
  ∃ vec log fs,
    node_type ∈ ["job"; "skill"; "company"] ∧
    (embedding_of_neighbors (embeddings w) (rng w) neighbors).1 = Ok vec ∧
    log_file w = Some log ∧
    let g := inserted_graph node_name node_type neighbors (G w) in
    let e := <[node_name := vec]> (embeddings w) in
    w' = mkWorld g e (Some g) (Some e) (Some (log ++ [(node_name, node_type)]))
           (jobs_csv w)
           (embedding_of_neighbors (embeddings w) (rng w) neighbors).2 fs.
Proof.
  unfold add_node_with_neighbors. case_bool_decide as Hty; simpl; [|done].
  intros H. run_inv H. step_inv.
  match goal with Hemb : approximate_embedding _ _ = _ |- _ =>
    rewrite approximate_embedding_run in Hemb; simpl in Hemb;
    injection Hemb as Hvec <- end.
  match goal with Hlog : log_new_node _ _ _ = _ |- _ =>
    apply log_new_node_Ok in Hlog as (log & fs1 & Hlog & ->) end.
  match goal with Hkg : write_gpickle _ _ = _ |- _ =>
    apply write_file_Ok in Hkg as [fs2 ->] end.
  apply write_file_Ok in H as [fs3 ->].
  eexists _, log, fs3. split; [done|]. split; [exact Hvec|]. by destruct w.
Qed.

(** *** The neighbour loop *)

Implicit Types (g : Nx.Graph) (n m : string).

Lemma ensure_neighbor_node_Some n g m d :
  Nx.g_node g !! m = Some d → Nx.g_node (ensure_neighbor n g) !! m = Some d.
Proof.
  intros Hm. unfold ensure_neighbor, Nx.has_node.
  case_bool_decide as Hn; [done|].
  assert (n ≠ m) by (intros ->; apply Hn; eauto).
  repeat case_match; try done; by rewrite add_node_node_ne.
Qed.

Lemma ensure_neighbor_node_ne n g m :
  n ≠ m → Nx.g_node (ensure_neighbor n g) !! m = Nx.g_node g !! m.
Proof.
  intros. unfold ensure_neighbor. repeat case_match; try done;
    by rewrite add_node_node_ne.
Qed.

Lemma ensure_neighbor_adj_ne n g m :
  n ≠ m → Nx.adj_of (ensure_neighbor n g) m = Nx.adj_of g m.
Proof.
  intros. unfold ensure_neighbor. repeat case_match; try done;
    by rewrite add_node_adj_ne.
Qed.

(** The loop keeps the nodes it finds, with their attributes. *)
Lemma connect_neighbors_node_Some node_name neighbors g m d :
  Nx.g_node g !! m = Some d →
  Nx.g_node (connect_neighbors node_name neighbors g) !! m = Some d.
Proof.
  unfold connect_neighbors. revert g.
  induction neighbors as [|n ns IH]; intros g Hm; simpl; [done|].
  apply IH. by apply add_edge_node_Some, ensure_neighbor_node_Some.
Qed.

Lemma ensure_neighbor_adj_present n g m :
  is_Some (Nx.g_node g !! m) → Nx.adj_of (ensure_neighbor n g) m = Nx.adj_of g m.
Proof.
  intros Hm. destruct (decide (n = m)) as [->|Hne].
  - unfold ensure_neighbor, Nx.has_node. by rewrite bool_decide_eq_true_2.
  - by apply ensure_neighbor_adj_ne.
Qed.

(** The neighbours of the node after the loop: those it had and the
    listed ones, each once however often it is listed. *)
Lemma connect_neighbors_adj_dom node_name neighbors g :
  is_Some (Nx.g_node g !! node_name) →
  dom (Nx.adj_of (connect_neighbors node_name neighbors g) node_name)
  = dom (Nx.adj_of g node_name) ∪ list_to_set neighbors.
Proof.
  unfold connect_neighbors. revert g.
  induction neighbors as [|n ns IH]; intros g [d Hd]; simpl.
  - clear. set_solver.
  - assert (Hd' := ensure_neighbor_node_Some n _ _ _ Hd).
    rewrite IH by (exists d; by apply add_edge_node_Some).
    rewrite add_edge_adj_dom.
    rewrite touch_adj_present, touch_present by eauto using touch_node_Some.
    rewrite ensure_neighbor_adj_present by eauto. clear. set_solver.
Qed.

(** Every listed neighbour ends up adjacent to the node. *)
Lemma connect_neighbors_has_edge node_name neighbors g n :
  is_Some (Nx.g_node g !! node_name) → n ∈ neighbors →
  Nx.has_edge (connect_neighbors node_name neighbors g) node_name n = true.
Proof.
  intros Hnode Hin. unfold Nx.has_edge. apply bool_decide_eq_true, elem_of_dom.
  rewrite connect_neighbors_adj_dom by done. set_solver.
Qed.

(** A listed neighbour that was not in the graph is created by the
    loop: with the type its prefix names or, when the prefix is none of
    the three, by [add_edge] and with no attribute. *)
Lemma connect_neighbors_creates node_name neighbors g n :
  is_Some (Nx.g_node g !! node_name) → n ∈ neighbors →
  Nx.g_node g !! n = None →
  Nx.g_node (connect_neighbors node_name neighbors g) !! n
  = Some (match prefix_type n with Some t => {["type" := t]} | None => ∅ end).
Proof.
  unfold connect_neighbors. revert g.
  induction neighbors as [|n' ns IH]; intros g [d Hd] Hin Hnone; simpl.
  - by apply elem_of_nil in Hin.
  - assert (Hne : node_name ≠ n) by congruence.
    assert (Hd' := ensure_neighbor_node_Some n' _ _ _ Hd).
    destruct (decide (n' = n)) as [->|Hn'].
    + apply (connect_neighbors_node_Some node_name ns).
      unfold ensure_neighbor, Nx.has_node, prefix_type.
      rewrite bool_decide_eq_false_2 by (rewrite Hnone; by intros [? ?]).
      repeat case_match; simplify_eq;
        try (apply add_edge_node_Some; rewrite add_node_node_eq, Hnone; simpl;
             by rewrite (right_id_L ∅ (∪))).
      all: by apply add_edge_node_created.
    + apply elem_of_cons in Hin as [->|Hin]; [done|].
      apply IH; [|done|].
      * exists d. by apply add_edge_node_Some.
      * rewrite add_edge_node_ne, ensure_neighbor_node_ne by done. done.
Qed.

(** The inserted node carries the supplied type. *)
Lemma inserted_graph_type node_name node_type neighbors g :
  Nx.node_attr (inserted_graph node_name node_type neighbors g) node_name "type"
  = Some node_type.
Proof.
  unfold inserted_graph, Nx.node_attr.
  erewrite connect_neighbors_node_Some by apply add_node_node_eq. simpl.
  apply lookup_union_Some_l, lookup_singleton_eq.
Qed.

(** *** Insertion and persistence *)

(** C2, as the code has it.  A call of [add_node_with_neighbors] that
    returns has persisted everything together: the node is in the graph
    with an edge to every listed neighbour, it has an embedding, its
    entry is the last of the log file, and the graph file and the
    embeddings file hold the graph and the embeddings of the memory. *)
Theorem insert_success_persists_all node_name node_type neighbors w :
  succeeded (add_node_with_neighbors node_name node_type neighbors w) = true →
  let w' := (add_node_with_neighbors node_name node_type neighbors w).2 in
  is_Some (get_node w' node_name) ∧
  (∀ n, n ∈ neighbors → Nx.has_edge (G w') node_name n = true) ∧
  is_Some (get_embedding w' node_name) ∧
  (∃ log, log_file w = Some log ∧
          log_file w' = Some (log ++ [(node_name, node_type)])) ∧
  kg_file w' = Some (G w') ∧
  emb_file w' = Some (embeddings w').
Proof.
  intros Hok. apply succeeded_Ok in Hok as [[] Hrun].
  apply add_node_with_neighbors_Ok in Hrun as (vec & log & fs & _ & _ & Hlog & ->).
  simpl. unfold get_node, get_embedding. simpl.
  assert (Hnode : Nx.g_node (Nx.add_node node_name {["type" := node_type]} (G w))
                    !! node_name
                  = Some ({["type" := node_type]}
                            ∪ default ∅ (Nx.g_node (G w) !! node_name)))
    by apply add_node_node_eq.
  repeat split.
  - unfold inserted_graph. erewrite connect_neighbors_node_Some; eauto.
  - intros n Hn. apply connect_neighbors_has_edge; eauto.
  - rewrite lookup_insert_eq. eauto.
  - eauto.
Qed.

(** C3, as the code has it.  The snapshot is written as two files, the
    graph first and the embeddings after it.  When the operation
    returns, insertion or rebuild, the two files hold the graph and the
    embeddings of the memory, so they fit each other. *)
Theorem success_persists_matching_snapshot (op : M unit) w :
  (∃ node_name node_type neighbors,
      op = add_node_with_neighbors node_name node_type neighbors)
  ∨ op = nightly_retrain →
  succeeded (op w) = true →
  kg_file (op w).2 = Some (G (op w).2) ∧
  emb_file (op w).2 = Some (embeddings (op w).2).
Proof.
  intros [(node_name & node_type & neighbors & ->) | ->] Hok;
    apply succeeded_Ok in Hok as [[] Hrun].
  - apply add_node_with_neighbors_Ok in Hrun as (vec & log & fs & _ & _ & _ & ->).
    done.
  - rewrite Hrun. simpl. revert Hrun. generalize (nightly_retrain w).2. intros w'.
    unfold nightly_retrain. intros H. run_inv H.
    destruct (node2vec_fit _) as [wv|]; [|done]. run_inv H. step_inv.
    repeat match goal with
    | Hw : write_gpickle _ _ = _ |- _ => apply write_file_Ok in Hw as [? ->]
    | Hw : dump_embeddings _ _ = _ |- _ => apply write_file_Ok in Hw as [? ->]
    | Hw : dump_log _ _ = _ |- _ => apply write_file_Ok in Hw as [? ->]
    end.
    done.
Qed.

(** *** The rebuild *)

Lemma add_skill_dom job g skill :
  dom (Nx.g_node (add_skill job g skill)) =
  {[job; skill_node (Py.strip skill)]} ∪ dom (Nx.g_node g).
Proof.
  unfold add_skill. rewrite add_edge_dom, add_node_dom. unfold skill_node. set_solver.
Qed.

Lemma add_skills_dom job skills g :
  job ∈ dom (Nx.g_node g) →
  dom (Nx.g_node (foldl (add_skill job) g skills)) =
  list_to_set (skill_node <$> map Py.strip skills) ∪ dom (Nx.g_node g).
Proof.
  revert g. induction skills as [|s ss IH]; intros g Hjob; simpl.
  - clear. set_solver.
  - assert (Hstep := add_skill_dom job g s).
    rewrite IH by (rewrite Hstep; clear -Hjob; set_solver).
    rewrite Hstep. clear -Hjob. set_solver.
Qed.

Lemma add_row_dom g row :
  dom (Nx.g_node (add_row g row)) =
  {[job_node row; company_node row]} ∪ list_to_set (skill_node <$> skills_of row)
  ∪ dom (Nx.g_node g).
Proof.
  unfold add_row, skills_of. fold (job_node row) (company_node row).
  set (g0 := Nx.add_edge _ _ _ _).
  assert (Hg0 : dom (Nx.g_node g0) =
                {[job_node row; company_node row]} ∪ dom (Nx.g_node g)).
  { unfold g0. rewrite add_edge_dom, !add_node_dom. clear. set_solver. }
  rewrite add_skills_dom by (rewrite Hg0; clear; set_solver).
  rewrite Hg0. clear. set_solver.
Qed.

(** The nodes of the rebuilt graph are the ids the dataset names. *)
Lemma build_graph_nodes rows :
  dom (Nx.g_node (build_graph rows)) = dataset_nodes rows.
Proof.
  unfold build_graph.
  assert (H : ∀ g, dom (Nx.g_node (foldl add_row g rows)) =
                   dataset_nodes rows ∪ dom (Nx.g_node g)).
  { induction rows as [|row rows IH]; intros g; simpl.
    - unfold dataset_nodes. simpl. set_solver.
    - rewrite IH, add_row_dom. unfold dataset_nodes. simpl.
      rewrite fmap_app, list_to_set_app_L. set_solver. }
  rewrite H. simpl. rewrite dom_empty_L. set_solver.
Qed.

Lemma nightly_retrain_Ok w w' :
  nightly_retrain w = (Ok tt, w') →
  ∃ rows wv fs,
    jobs_csv w = Some rows ∧
    node2vec_fit (build_graph rows) = Some wv ∧
    let g := build_graph rows in
    let e := embeddings_of wv g in
    w' = mkWorld g e (Some g) (Some e) (Some []) (Some rows) (rng w) fs.
Proof.
  unfold nightly_retrain. intros H. run_inv H.
  match goal with Hr : read_csv _ = _ |- _ =>
    apply read_csv_Ok in Hr as [Hrows ->] end.
  destruct (node2vec_fit _) as [wv|] eqn:Hfit; [|done]. run_inv H. step_inv.
  repeat match goal with
  | Hw : write_gpickle _ _ = _ |- _ => apply write_file_Ok in Hw as [? ->]
  | Hw : dump_embeddings _ _ = _ |- _ => apply write_file_Ok in Hw as [? ->]
  | Hw : dump_log _ _ = _ |- _ => apply write_file_Ok in Hw as [? ->]
  end.
  eexists _, wv, _. split; [done|]. split; [done|]. simpl.
  unfold set_log_file, set_faults, set_embeddings, set_G, set_emb_file, set_kg_file.
  simpl. by rewrite Hrows.
Qed.

Lemma embeddings_of_lookup wv g n :
  embeddings_of wv g !! n = (λ _, wv n) <$> Nx.g_node g !! n.
Proof.
  unfold embeddings_of. rewrite map_lookup_imap.
  by destruct (Nx.g_node g !! n).
Qed.

(** C9.  After a rebuild that returns, the store holds the graph built
    from the dataset and one trained vector for each of its nodes, the
    nodes are the ids the dataset names, every other id (a node
    inserted before the rebuild that the dataset does not name) is
    found neither as a node nor as an embedding, and the log file holds
    the empty list. *)
Theorem rebuild_supersedes w :
  succeeded (nightly_retrain w) = true →
  let w' := (nightly_retrain w).2 in
  ∃ rows wv,
    jobs_csv w = Some rows ∧
    node2vec_fit (build_graph rows) = Some wv ∧
    G w' = build_graph rows ∧
    (∀ n, get_node w' n = Nx.g_node (build_graph rows) !! n) ∧
    (∀ n, is_Some (get_node w' n) ↔ n ∈ dataset_nodes rows) ∧
    (∀ n, n ∈ dataset_nodes rows → get_embedding w' n = Some (wv n)) ∧
    (∀ n, n ∉ dataset_nodes rows →
          get_node w' n = None ∧ get_embedding w' n = None) ∧
    log_file w' = Some [].
Proof.
  intros Hok. apply succeeded_Ok in Hok as [[] Hrun].
  apply nightly_retrain_Ok in Hrun as (rows & wv & fs & Hrows & Hfit & ->).
  simpl. exists rows, wv. unfold get_node, get_embedding. simpl.
  assert (Hdom : ∀ n, is_Some (Nx.g_node (build_graph rows) !! n)
                      ↔ n ∈ dataset_nodes rows).
  { intros n. by rewrite <- build_graph_nodes, elem_of_dom. }
  repeat split; try done; try apply Hdom.
  - intros n Hn. rewrite embeddings_of_lookup.
    apply Hdom in Hn as [d ->]. done.
  - apply eq_None_not_Some. by rewrite Hdom.
  - rewrite embeddings_of_lookup.
    assert (Nx.g_node (build_graph rows) !! n = None) as ->; [|done].
    apply eq_None_not_Some. by rewrite Hdom.
Qed.

(** A failed read of the dataset or a failed training raises before
    anything is written. *)
Lemma nightly_retrain_aborts w :
  jobs_csv w = None ∨
  (∃ rows, jobs_csv w = Some rows ∧ node2vec_fit (build_graph rows) = None) →
  ∃ e, nightly_retrain w = (Raise e, w).
Proof.
  unfold nightly_retrain, mbind, M_bind, bind, read_csv.
  intros [-> | (rows & -> & ->)]; eauto.
Qed.

Lemma main_loop_idle k later w :
  main_loop (replicate k false ++ later) w = main_loop later w.
Proof. induction k as [|k IH]; simpl; [done|]. exact IH. Qed.

(** C4, as the code has it.  When the dataset cannot be read or the
    training fails, the rebuild raises and leaves memory, snapshot files
    and log file as they were.  Nothing catches the exception: at the
    first wake-up where the job is due the polling loop ends with it,
    whatever wake-ups would follow. *)
Theorem rebuild_failure_aborts_and_ends_loop w :
  jobs_csv w = None ∨
  (∃ rows, jobs_csv w = Some rows ∧ node2vec_fit (build_graph rows) = None) →
  ∃ e,
    nightly_retrain w = (Raise e, w) ∧
    ∀ idle later,
      main_loop (replicate idle false ++ true :: later) w = (Raise e, w).
Proof.
  intros Hfail. destruct (nightly_retrain_aborts w Hfail) as [e He].
  exists e. split; [done|]. intros idle later.
  rewrite main_loop_idle. simpl. unfold run_pending.
  by apply bind_Raise.
Qed.

(** *** What a call leaves in memory, however it ends *)

Lemma write_file_memory path store w :
  (∀ o w0, G (store o w0) = G w0 ∧ embeddings (store o w0) = embeddings w0) →
  G (write_file path store w).2 = G w ∧
  embeddings (write_file path store w).2 = embeddings w.
Proof.
  intros Hstore. unfold write_file.
  destruct (faults w) as [|[] fs]; simpl; rewrite ?(proj1 (Hstore _ _)),
    ?(proj2 (Hstore _ _)); done.
Qed.

Lemma bind_memory {A B} (m : M A) (k : A → M B) w g e :
  G (m w).2 = g → embeddings (m w).2 = e →
  (∀ a w1, G w1 = g → embeddings w1 = e →
           G (k a w1).2 = g ∧ embeddings (k a w1).2 = e) →
  G ((m ≫= k) w).2 = g ∧ embeddings ((m ≫= k) w).2 = e.
Proof.
  unfold mbind, M_bind, bind. destruct (m w) as [[a|x] w1]; simpl; eauto.
Qed.

Lemma log_new_node_memory node_name node_type w :
  G (log_new_node node_name node_type w).2 = G w ∧
  embeddings (log_new_node node_name node_type w).2 = embeddings w.
Proof.
  unfold log_new_node. apply bind_memory.
  - unfold load_log. by destruct (log_file w).
  - unfold load_log. by destruct (log_file w).
  - intros log w1 <- <-. by apply write_file_memory.
Qed.

Lemma log_and_persist_memory node_name node_type w :
  G (log_and_persist node_name node_type w).2 = G w ∧
  embeddings (log_and_persist node_name node_type w).2 = embeddings w.
Proof.
  unfold log_and_persist. apply bind_memory; try apply log_new_node_memory.
  intros [] w2 Hg2 He2. apply bind_memory; [done..|]. intros g w3 Hg3 He3.
  apply bind_memory.
  - rewrite <- Hg3. by apply write_file_memory.
  - rewrite <- He3. by apply write_file_memory.
  - intros [] w4 Hg4 He4. apply bind_memory; [done..|]. intros e w5 Hg5 He5.
    rewrite <- Hg5, <- He5. by apply write_file_memory.
Qed.

(** A call with a valid type, step by step: the graph is updated, then
    the vector is computed, and only then is anything written. *)
Lemma add_node_with_neighbors_run node_name node_type neighbors w :
  node_type ∈ ["job"; "skill"; "company"] →
  add_node_with_neighbors node_name node_type neighbors w =
  let g := inserted_graph node_name node_type neighbors (G w) in
  let r := embedding_of_neighbors (embeddings w) (rng w) neighbors in
  match r.1 with
  | Ok vec =>
      log_and_persist node_name node_type
        (set_embeddings (<[node_name := vec]> (embeddings w)) (set_rng r.2 (set_G g w)))
  | Raise x => (Raise x, set_rng r.2 (set_G g w))
  end.
Proof.
  intros Hty. unfold add_node_with_neighbors.
  rewrite bool_decide_eq_true_2 by done. simpl.
  unfold mbind at 1 2 3, M_bind at 1 2 3, bind at 1 2 3, modify at 1 2. simpl.
  rewrite approximate_embedding_run. simpl.
  destruct (embedding_of_neighbors _ _ _) as [[vec|x] s] eqn:Hemb; simpl.
  - unfold mbind at 1, M_bind at 1, bind at 1, modify at 1.
    unfold inserted_graph. by destruct w.
  - unfold inserted_graph. by destruct w.
Qed.

(** The graph of the memory after a call with a valid type is the
    graph the call builds, and the embeddings are the old ones with the
    node's vector added when the vector could be computed. *)
Lemma add_node_with_neighbors_memory node_name node_type neighbors w :
  node_type ∈ ["job"; "skill"; "company"] →
  let w' := (add_node_with_neighbors node_name node_type neighbors w).2 in
  G w' = inserted_graph node_name node_type neighbors (G w) ∧
  ∀ vec, (embedding_of_neighbors (embeddings w) (rng w) neighbors).1 = Ok vec →
         embeddings w' = <[node_name := vec]> (embeddings w).
Proof.
  intros Hty. simpl. rewrite add_node_with_neighbors_run by done. simpl.
  destruct (embedding_of_neighbors _ _ _) as [[vec|x] s] eqn:Hemb; simpl.
  - destruct (log_and_persist_memory node_name node_type
      (set_embeddings (<[node_name:=vec]> (embeddings w))
         (set_rng s (set_G (inserted_graph node_name node_type neighbors (G w)) w))))
      as [-> ->].
    split; [done|]. by intros ? [= <-].
  - done.
Qed.

(** *** Types *)

Lemma prefix_type_job x : prefix_type ("job_" +:+ x) = Some "job".
Proof. done. Qed.
Lemma prefix_type_skill x : prefix_type ("skill_" +:+ x) = Some "skill".
Proof. done. Qed.
Lemma prefix_type_company x : prefix_type ("company_" +:+ x) = Some "company".
Proof. done. Qed.

Lemma add_node_typed g n a t :
  typed_by_prefix g → prefix_type n = Some t → a !! "type" = Some t →
  typed_by_prefix (Nx.add_node n a g).
Proof.
  intros Hg Hn Ha m d. destruct (decide (n = m)) as [<-|Hne].
  - rewrite add_node_node_eq. intros [= <-]. rewrite Hn. split; [eauto|].
    by apply lookup_union_Some_l.
  - rewrite add_node_node_ne by done. apply Hg.
Qed.

Lemma add_edge_typed g u v a :
  typed_by_prefix g → is_Some (Nx.g_node g !! u) → is_Some (Nx.g_node g !! v) →
  typed_by_prefix (Nx.add_edge u v a g).
Proof.
  intros Hg Hu Hv m d. unfold Nx.add_edge. simpl.
  rewrite (touch_present g u), (touch_present g v) by done. apply Hg.
Qed.

Lemma add_skill_typed job g skill :
  typed_by_prefix g → is_Some (Nx.g_node g !! job) →
  typed_by_prefix (add_skill job g skill).
Proof.
  intros Hg [d Hd]. unfold add_skill. apply add_edge_typed.
  - eapply add_node_typed; [done | apply prefix_type_skill | done].
  - destruct (decide ("skill_" +:+ Py.strip skill = job)) as [<-|Hne].
    + rewrite add_node_node_eq. eauto.
    + rewrite add_node_node_ne by done. eauto.
  - rewrite add_node_node_eq. eauto.
Qed.

Lemma add_skill_keeps job g skill m :
  is_Some (Nx.g_node g !! m) → is_Some (Nx.g_node (add_skill job g skill) !! m).
Proof.
  intros Hm. apply elem_of_dom. rewrite add_skill_dom.
  apply elem_of_dom in Hm. set_solver.
Qed.

Lemma add_row_typed g row : typed_by_prefix g → typed_by_prefix (add_row g row).
Proof.
  intros Hg. unfold add_row.
  set (g0 := Nx.add_edge _ _ _ _).
  assert (Hg0 : typed_by_prefix g0 ∧ is_Some (Nx.g_node g0 !! ("job_" +:+ job_id row))).
  { split; [|apply add_edge_endpoints]. apply add_edge_typed.
    - eapply add_node_typed; [|apply prefix_type_company|done].
      eapply add_node_typed; [done|apply prefix_type_job|done].
    - rewrite add_node_node_ne by done. rewrite add_node_node_eq. eauto.
    - rewrite add_node_node_eq. eauto. }
  clearbody g0. revert g0 Hg0.
  induction (Py.split "," (required_skills row)) as [|s ss IH];
    intros g0 [Hty Hjob]; simpl; [done|].
  apply IH. split; [by apply add_skill_typed | by apply add_skill_keeps].
Qed.

(** The rebuild types every node by its prefix. *)
Lemma build_graph_typed rows : typed_by_prefix (build_graph rows).
Proof.
  unfold build_graph.
  assert (H : ∀ g, typed_by_prefix g → typed_by_prefix (foldl add_row g rows)).
  { induction rows as [|row rows IH]; intros g Hg; simpl; [done|].
    by apply IH, add_row_typed. }
  apply H. intros n d. unfold Nx.empty. simpl. by rewrite lookup_empty.
Qed.

(** C5, as the code has it.  The only check of a call is that the type
    is one of the three: any other type is rejected at once with
    nothing changed.  With a valid type the node gets the supplied
    type, whatever its prefix and whatever type it had; a neighbour the
    call creates gets the type its prefix names; and every node of a
    rebuilt graph has the type of its prefix. *)
Theorem type_is_checked_prefix_is_not node_name node_type neighbors w :
  (node_type ∉ ["job"; "skill"; "company"] →
     add_node_with_neighbors node_name node_type neighbors w
     = (Raise (ValueError ("Invalid node type: " +:+ node_type)), w)) ∧
  (node_type ∈ ["job"; "skill"; "company"] →
     let w' := (add_node_with_neighbors node_name node_type neighbors w).2 in
     Nx.node_attr (G w') node_name "type" = Some node_type ∧
     ∀ n t, n ∈ neighbors → get_node w n = None → n ≠ node_name →
            prefix_type n = Some t →
            Nx.node_attr (G w') n "type" = Some t) ∧
  (∀ rows n, n ∈ dataset_nodes rows →
     is_Some (prefix_type n) ∧
     Nx.node_attr (build_graph rows) n "type" = prefix_type n).
Proof.
  split; [|split].
  - intros Hty. unfold add_node_with_neighbors.
    by rewrite bool_decide_eq_false_2.
  - intros Hty. simpl.
    destruct (add_node_with_neighbors_memory node_name node_type neighbors w Hty)
      as [-> _].
    split; [apply inserted_graph_type|].
    intros n t Hin Hnone Hne Ht. unfold Nx.node_attr, inserted_graph.
    rewrite (connect_neighbors_creates node_name neighbors _ n).
    + rewrite Ht. simpl. apply lookup_singleton_eq.
    + rewrite add_node_node_eq. eauto.
    + done.
    + by rewrite add_node_node_ne.
  - intros rows n Hn. rewrite <- build_graph_nodes in Hn.
    apply elem_of_dom in Hn as [d Hd]. unfold Nx.node_attr. rewrite Hd. simpl.
    by apply (build_graph_typed rows).
Qed.

(** C6 at the neighbours the loop has no branch for.  A listed
    neighbour that is not in the graph and whose prefix is none of the
    three gets its edge all the same, and exists only because
    [add_edge] creates it: as a node without a type. *)
Theorem unknown_prefix_neighbor_is_untyped node_name node_type neighbors n w :
  node_type ∈ ["job"; "skill"; "company"] →
  n ∈ neighbors → get_node w n = None → n ≠ node_name →
  prefix_type n = None →
  let w' := (add_node_with_neighbors node_name node_type neighbors w).2 in
  Nx.has_edge (G w') node_name n = true ∧
  get_node w' n = Some ∅ ∧
  Nx.node_attr (G w') n "type" = None.
Proof.
  intros Hty Hin Hnone Hne Hpre. simpl.
  destruct (add_node_with_neighbors_memory node_name node_type neighbors w Hty)
    as [Hg _].
  unfold get_node, Nx.node_attr. rewrite Hg. unfold inserted_graph.
  assert (Hnode : is_Some (Nx.g_node (Nx.add_node node_name {["type" := node_type]}
                                        (G w)) !! node_name))
    by (rewrite add_node_node_eq; eauto).
  rewrite (connect_neighbors_creates node_name neighbors _ n), Hpre;
    [|done|done|by rewrite add_node_node_ne].
  split; [by apply connect_neighbors_has_edge|]. done.
Qed.

(** *** The approximate embedding *)

Implicit Types (e : gmap string (list float)).

(** The rows that are averaged are the embeddings of the valid
    neighbours, one row for each occurrence in the list. *)
Lemma neighbor_vecs_valid e neighbors :
  Forall2 (λ n vec, e !! n = Some vec)
          (valid_neighbors e neighbors)
          (neighbor_vecs e (valid_neighbors e neighbors)).
Proof.
  unfold valid_neighbors, neighbor_vecs.
  induction neighbors as [|n ns IH]; simpl; [constructor|].
  rewrite filter_cons. case_decide as Hn; [|done].
  destruct Hn as [vec Hvec]. simpl. rewrite Hvec. by constructor.
Qed.

Lemma neighbor_vecs_dimension d e l :
  dimension_is d e → Forall (λ r, length r = d) (neighbor_vecs e l).
Proof.
  intros He. unfold neighbor_vecs. induction l as [|n l IH]; simpl; [constructor|].
  destruct (e !! n) as [vec|] eqn:Hn; simpl; [|done].
  constructor; [|done]. by apply (He n vec).
Qed.

(** With a valid neighbour and one dimension store-wide, the vector is
    the elementwise mean of the rows. *)
Lemma embedding_of_neighbors_mean d e s neighbors :
  dimension_is d e → valid_neighbors e neighbors ≠ [] →
  embedding_of_neighbors e s neighbors
  = (Ok (elementwise_mean d (neighbor_vecs e (valid_neighbors e neighbors))), s).
Proof.
  intros He Hvalid. unfold embedding_of_neighbors.
  assert (Hrows : neighbor_vecs e (valid_neighbors e neighbors) ≠ []).
  { intros Hnil. apply Hvalid.
    pose proof (neighbor_vecs_valid e neighbors) as H2.
    rewrite Hnil in H2. by apply Forall2_nil_inv_r in H2. }
  destruct (valid_neighbors e neighbors) as [|n valid] eqn:Hv; [done|].
  by rewrite (mean_axis0_elementwise d) by (done || by apply neighbor_vecs_dimension).
Qed.

(** C7.  In a store whose embeddings all have one dimension [d] (32 in
    every store the module has built), a call with a valid type and at
    least one listed neighbour that has an embedding gives the node the
    elementwise mean of the embeddings of the listed neighbours that have
    one: component by component, their sum over their number. *)
Theorem insert_embedding_is_neighbor_mean node_name node_type neighbors d w :
  node_type ∈ ["job"; "skill"; "company"] →
  dimension_is d (embeddings w) →
  (∃ n, n ∈ neighbors ∧ is_Some (get_embedding w n)) →
  let w' := (add_node_with_neighbors node_name node_type neighbors w).2 in
  ∃ vecs,
    Forall2 (λ n vec, get_embedding w n = Some vec)
            (filter (λ n, is_Some (get_embedding w n)) neighbors) vecs ∧
    get_embedding w' node_name = Some (elementwise_mean d vecs) ∧
    ∀ i, i < d →
         elementwise_mean d vecs !! i
         = Some (PrimFloat.div (fsum (column i vecs)) (Np.of_count (length vecs))).
Proof.
  intros Hty Hdim (n & Hin & Hn). simpl.
  exists (neighbor_vecs (embeddings w) (valid_neighbors (embeddings w) neighbors)).
  split; [apply neighbor_vecs_valid|]. split.
  - destruct (add_node_with_neighbors_memory node_name node_type neighbors w Hty)
      as [_ Hemb].
    unfold get_embedding. erewrite Hemb; [apply lookup_insert_eq|].
    rewrite (embedding_of_neighbors_mean d); [done..|].
    intros Hnil. assert (n ∈ valid_neighbors (embeddings w) neighbors) as Hv.
    { apply list_elem_of_filter. by split. }
    rewrite Hnil in Hv. by apply elem_of_nil in Hv.
  - intros i Hi. unfold elementwise_mean.
    change (map ?f ?l) with (f <$> l). rewrite list_lookup_fmap.
    by rewrite lookup_seq_lt.
Qed.

(** C10.  A neighbour that has an embedding and is listed [k] times
    is adjacent to the node once, the neighbours of the node being a set,
    but stands [k] times among the rows that are averaged: the vector is
    the mean over the occurrences in the list. *)
Theorem duplicate_neighbor_counts_each_time node_name node_type neighbors n k d w :
  node_type ∈ ["job"; "skill"; "company"] →
  dimension_is d (embeddings w) →
  is_Some (get_embedding w n) →
  length (filter (n =.) neighbors) = k → 1 < k →
  let w' := (add_node_with_neighbors node_name node_type neighbors w).2 in
  Nx.number_of_edges_between (G w') node_name n = 1 ∧
  dom (Nx.adj_of (G w') node_name)
  = dom (Nx.adj_of (Nx.add_node node_name {["type" := node_type]} (G w)) node_name)
    ∪ list_to_set neighbors ∧
  ∃ valid vecs,
    valid = filter (λ m, is_Some (get_embedding w m)) neighbors ∧
    length (filter (n =.) valid) = k ∧
    Forall2 (λ m vec, get_embedding w m = Some vec) valid vecs ∧
    get_embedding w' node_name = Some (elementwise_mean d vecs).
Proof.
  intros Hty Hdim Hn Hk Hk1. simpl.
  destruct (add_node_with_neighbors_memory node_name node_type neighbors w Hty)
    as [Hg Hemb].
  assert (Hnode : is_Some (Nx.g_node (Nx.add_node node_name {["type" := node_type]}
                                        (G w)) !! node_name))
    by (rewrite add_node_node_eq; eauto).
  assert (Hin : n ∈ neighbors).
  { destruct (filter (n =.) neighbors) as [|m l] eqn:Hf; [simpl in Hk; lia|].
    assert (m ∈ filter (n =.) neighbors) as Hm by (rewrite Hf; left).
    apply list_elem_of_filter in Hm as [<- Hm]. done. }
  split; [|split].
  - unfold Nx.number_of_edges_between. rewrite Hg.
    unfold inserted_graph. by rewrite connect_neighbors_has_edge.
  - rewrite Hg. unfold inserted_graph. by apply connect_neighbors_adj_dom.
  - exists (valid_neighbors (embeddings w) neighbors),
           (neighbor_vecs (embeddings w) (valid_neighbors (embeddings w) neighbors)).
    split; [done|]. split; [|split; [apply neighbor_vecs_valid|]].
    + rewrite <- Hk. unfold valid_neighbors. f_equal.
      apply list_filter_filter_l. by intros m <-.
    + unfold get_embedding. erewrite Hemb; [apply lookup_insert_eq|].
      rewrite (embedding_of_neighbors_mean d); [done..|].
      intros Hnil. assert (n ∈ valid_neighbors (embeddings w) neighbors) as Hv.
      { apply list_elem_of_filter. by split. }
      rewrite Hnil in Hv. by apply elem_of_nil in Hv.
Qed.

(** *** The shape of the rebuilt graph *)

Lemma append_inj p : Inj (=) (=) (String.append p).
Proof.
intros x y. induction p as [|c p IH]; simpl; [done|]. intros [= H]. by apply IH.
Qed.

(** Tagging the members of a list with a prefix keeps their number. *)
Lemma size_tagged p (l : list string) :
  size (list_to_set (String.append p <$> l) : gset string)
  = size (list_to_set l : gset string).
Proof.
induction l as [|x l IH]; [done|]. rewrite fmap_cons, !list_to_set_cons.
destruct (decide (x ∈ l)) as [Hin|Hin].
- assert (p +:+ x ∈ String.append p <$> l) by by apply list_elem_of_fmap_2.
  rewrite !subseteq_union_1_L; [done| |]; apply singleton_subseteq_l;
    by apply elem_of_list_to_set.
- assert (p +:+ x ∉ String.append p <$> l).
  { intros (y & Heq & Hy)%list_elem_of_fmap. apply append_inj in Heq. by subst. }
  rewrite !size_union, !size_singleton, IH; [done| |];
    apply disjoint_singleton_l; by rewrite elem_of_list_to_set.
Qed.

Lemma tagged_prefix p (l : list string) x :
  x ∈ (list_to_set (String.append p <$> l) : gset string) → ∃ y, x = p +:+ y.
Proof. rewrite elem_of_list_to_set. intros (y & -> & _)%list_elem_of_fmap. eauto. Qed.

Lemma skill_nodes_prefix (l : list string) x :
  x ∈ (list_to_set (skill_node <$> l) : gset string) → prefix_type x = Some "skill".
Proof. intros [y ->]%tagged_prefix. apply prefix_type_skill. Qed.

(** One step of the rebuild: the node [v] is added and then the edge
    from the node [u] to it. *)
Lemma link_step g u v na ea :
  simple g → is_Some (Nx.g_node g !! u) → u ≠ v →
  let g' := Nx.add_edge u v ea (Nx.add_node v na g) in
  let d := ea ∪ default ∅ (Nx.adj_of g u !! v) in
  simple g' ∧
  Nx.degree_sum (Nx.g_adj g')
  = Nx.degree_sum (Nx.g_adj g) + (if decide (v ∈ dom (Nx.adj_of g u)) then 0 else 2) ∧
  (∀ m, Nx.adj_of g' m
        = if decide (m = v) then <[u := d]> (Nx.adj_of g v)
          else if decide (m = u) then <[v := d]> (Nx.adj_of g u)
          else Nx.adj_of g m) ∧
  (∀ m, is_Some (Nx.g_node g !! m) → is_Some (Nx.g_node g' !! m)).
Proof.
intros Hg [du Hu] Hne. cbv zeta.
assert (Hg1 := add_node_simple g v na Hg).
assert (Hu1 : is_Some (Nx.g_node (Nx.add_node v na g) !! u))
  by (rewrite add_node_node_ne by done; eauto).
assert (Hv1 : is_Some (Nx.g_node (Nx.add_node v na g) !! v))
  by (rewrite add_node_node_eq; eauto).
split; [by apply add_edge_simple|]. split; [|split].
- rewrite add_edge_degree_sum by done.
  by rewrite add_node_degree_sum, add_node_adj_of.
- intros m. rewrite add_edge_adj_of by done. cbv zeta.
  by rewrite !add_node_adj_of.
- intros m [dm Hm]. destruct (decide (v = m)) as [<-|Hvm].
  + apply add_edge_endpoints.
  + exists dm. apply add_edge_node_Some. by rewrite add_node_node_ne.
Qed.

Lemma size_new_member (x : string) (S D : gset string) :
  size (({[x]} ∪ S) ∖ D)
  = (if decide (x ∈ D) then 0 else 1) + size (S ∖ ({[x]} ∪ D)).
Proof.
case_decide as Hx.
- simpl. f_equal. apply set_eq. intros y. set_solver.
- replace (({[x]} ∪ S) ∖ D) with ({[x]} ∪ S ∖ ({[x]} ∪ D)).
  + rewrite size_union, size_singleton by set_solver. done.
  + apply set_eq. intros y. destruct (decide (y = x)) as [->|]; set_solver.
Qed.

(** The skills of one row, added to the job [job]: the new edges are
    the skills the job was not adjacent to, each counted once, and
    nothing else of the graph changes. *)
Lemma add_skills_shape job skills g :
  simple g → is_Some (Nx.g_node g !! job) → (∀ s, job ≠ skill_node s) →
  let S : gset string := list_to_set (skill_node <$> map Py.strip skills) in
  let g' := foldl (add_skill job) g skills in
  simple g' ∧
  Nx.degree_sum (Nx.g_adj g')
  = Nx.degree_sum (Nx.g_adj g) + 2 * size (S ∖ dom (Nx.adj_of g job)) ∧
  dom (Nx.adj_of g' job) = dom (Nx.adj_of g job) ∪ S ∧
  (∀ x, x ∉ S → Nx.adj_of g' job !! x = Nx.adj_of g job !! x) ∧
  (∀ m, m ≠ job → m ∉ S → Nx.adj_of g' m = Nx.adj_of g m) ∧
  (∀ x, x ∈ S → Nx.edge_attr g' job x "relation" = Some "REQUIRES_SKILL").
Proof.
revert g. induction skills as [|s ss IH]; intros g Hg Hjob Hne; cbv zeta.
- change (list_to_set (skill_node <$> map Py.strip [])) with (∅ : gset string).
  change (foldl (add_skill job) g []) with g.
  split; [done|]. split.
  { replace (∅ ∖ dom (Nx.adj_of g job)) with (∅ : gset string) by (clear; set_solver).
    rewrite size_empty. lia. }
  split; [clear; set_solver|]. split; [done|]. split; [done|].
  intros x Hx. by apply not_elem_of_empty in Hx.
- change (list_to_set (skill_node <$> map Py.strip (s :: ss)))
    with ({[skill_node (Py.strip s)]}
          ∪ (list_to_set (skill_node <$> map Py.strip ss) : gset string)).
  change (foldl (add_skill job) g (s :: ss))
    with (foldl (add_skill job) (add_skill job g s) ss).
  set (sn := skill_node (Py.strip s)).
  set (S' := list_to_set (skill_node <$> map Py.strip ss) : gset string).
  pose proof (link_step g job sn {["type" := "skill"; "name" := Py.strip s]}
                {["relation" := "REQUIRES_SKILL"]} Hg Hjob (Hne _)) as Hstep.
  cbv zeta in Hstep.
  change (Nx.add_edge job sn _ (Nx.add_node sn _ g)) with (add_skill job g s) in Hstep.
  set (g1 := add_skill job g s) in *.
  destruct Hstep as (Hg1 & Hdeg1 & Hadj1 & Hkeep1).
  destruct (IH g1 Hg1 (Hkeep1 _ Hjob) Hne) as (Hg' & Hdeg' & Hdom' & Hlook' & Hoth' & Hlab').
  fold S' in Hdeg', Hdom', Hlook', Hoth', Hlab'.
  assert (Hjob1 : Nx.adj_of g1 job
                  = <[sn := {["relation" := "REQUIRES_SKILL"]}
                            ∪ default ∅ (Nx.adj_of g job !! sn)]> (Nx.adj_of g job)).
  { rewrite Hadj1. rewrite decide_False by apply Hne. by rewrite decide_True. }
  split; [done|]. split; [|split; [|split; [|split]]].
  + rewrite Hdeg', Hdeg1, Hjob1, dom_insert_L, size_new_member.
    case_decide; lia.
  + rewrite Hdom', Hjob1, dom_insert_L. clear. set_solver.
  + intros x [Hx1%not_elem_of_singleton Hx2]%not_elem_of_union.
    rewrite Hlook' by done. rewrite Hjob1. by rewrite lookup_insert_ne.
  + intros m Hm [Hx1%not_elem_of_singleton Hx2]%not_elem_of_union.
    rewrite Hoth' by done. rewrite Hadj1.
    by rewrite !decide_False.
  + intros x Hx. destruct (decide (x ∈ S')) as [Hin|Hnin]; [by apply Hlab'|].
    apply elem_of_union in Hx as [->%elem_of_singleton|Hx]; [|done].
    unfold Nx.edge_attr. rewrite Hlook' by done. rewrite Hjob1, lookup_insert_eq.
    simpl. by apply lookup_union_Some_l.
Qed.

(** One row of the dataset, added to a graph that has no node for its
    job yet. *)
Lemma add_row_shape g row :
  simple g → Nx.g_node g !! job_node row = None →
  let g' := add_row g row in
  simple g' ∧
  Nx.degree_sum (Nx.g_adj g')
  = Nx.degree_sum (Nx.g_adj g) + 2 * (1 + size (job_skills row)) ∧
  dom (Nx.adj_of g' (job_node row))
  = {[company_node row]} ∪ list_to_set (skill_node <$> skills_of row) ∧
  Nx.edge_attr g' (job_node row) (company_node row) "relation" = Some "POSTED_BY" ∧
  (∀ s, s ∈ skills_of row →
        Nx.edge_attr g' (job_node row) (skill_node s) "relation"
        = Some "REQUIRES_SKILL") ∧
  (∀ m, prefix_type m = Some "job" → m ≠ job_node row →
        Nx.adj_of g' m = Nx.adj_of g m).
Proof.
intros Hg Hfresh. cbv zeta. unfold add_row.
fold (job_node row) (company_node row).
set (job := job_node row). set (cn := company_node row).
set (g0 := Nx.add_node job _ g).
assert (Hg0 : simple g0) by by apply add_node_simple.
assert (Hjob0 : is_Some (Nx.g_node g0 !! job))
  by (unfold g0; rewrite add_node_node_eq; eauto).
assert (Hadj0 : ∀ m, Nx.adj_of g0 m = Nx.adj_of g m)
  by (intros m; by apply add_node_adj_of).
assert (Hdeg0 : Nx.degree_sum (Nx.g_adj g0) = Nx.degree_sum (Nx.g_adj g))
  by by apply add_node_degree_sum.
assert (Hempty : Nx.adj_of g job = ∅).
{ unfold Nx.adj_of. by rewrite (simple_adj_absent g job). }
assert (Hjc : job ≠ cn) by done.
pose proof (link_step g0 job cn {["type" := "company"; "name" := company row]}
              {["relation" := "POSTED_BY"]} Hg0 Hjob0 Hjc) as Hstep.
cbv zeta in Hstep.
set (g1 := Nx.add_edge job cn _ _) in *.
destruct Hstep as (Hg1 & Hdeg1 & Hadj1 & Hkeep1).
assert (Hjob1 : Nx.adj_of g1 job = {[cn := {["relation" := "POSTED_BY"]}]}).
{ rewrite Hadj1, decide_False, decide_True by done.
  rewrite Hadj0, Hempty, lookup_empty. simpl.
  by rewrite (right_id_L ∅ (∪)). }
assert (Hns : ∀ s, job ≠ skill_node s) by done.
destruct (add_skills_shape job (Py.split "," (required_skills row)) g1
            Hg1 (Hkeep1 _ Hjob0) Hns)
  as (Hg' & Hdeg' & Hdom' & Hlook' & Hoth' & Hlab').
fold (skills_of row) in Hdeg', Hdom', Hlook', Hoth', Hlab'.
set (S := list_to_set (skill_node <$> skills_of row) : gset string) in *.
assert (Hcn : cn ∉ S).
{ intros H%skill_nodes_prefix. unfold cn, company_node in H.
  by rewrite prefix_type_company in H. }
split; [done|]. split; [|split; [|split; [|split]]].
- rewrite Hdeg', Hdeg1, Hdeg0.
  rewrite Hadj0, Hempty, dom_empty_L. rewrite decide_False by set_solver.
  rewrite Hjob1, dom_singleton_L.
  replace (S ∖ {[cn]}) with S by (clear -Hcn; set_solver).
  unfold S, job_skills, skill_node. rewrite size_tagged. lia.
- rewrite Hdom', Hjob1, dom_singleton_L. done.
- unfold Nx.edge_attr. rewrite Hlook', Hjob1 by done.
  by rewrite lookup_singleton_eq.
- intros s Hs. apply Hlab'. apply elem_of_list_to_set. by apply list_elem_of_fmap_2.
- intros m Hm Hne. rewrite Hoth'; [| done |].
  + rewrite Hadj1, !decide_False, Hadj0; [done..|].
    intros ->. unfold cn, company_node in Hm. by rewrite prefix_type_company in Hm.
  + intros H%skill_nodes_prefix. congruence.
Qed.

Lemma job_node_fresh rows row :
  job_id row ∉ job_id <$> rows → job_node row ∉ dataset_nodes rows.
Proof.
intros Hid. unfold dataset_nodes. rewrite !not_elem_of_union. split; [split|].
- rewrite elem_of_list_to_set. intros (r & Heq & Hr)%list_elem_of_fmap.
  apply append_inj in Heq. apply Hid. rewrite Heq. by apply list_elem_of_fmap_2.
- rewrite elem_of_list_to_set. by intros (r & Heq & Hr)%list_elem_of_fmap.
- intros H%skill_nodes_prefix. unfold job_node in H. by rewrite prefix_type_job in H.
Qed.

(** The rebuilt graph, row after row: a simple graph whose degree sum
    counts every job-company and every job-skill pair twice, and in which
    each job is adjacent to its company and to its skills and to nothing
    else. *)
Lemma build_graph_shape rows :
  NoDup (job_id <$> rows) →
  let g := build_graph rows in
  simple g ∧
  Nx.degree_sum (Nx.g_adj g)
  = 2 * (length rows + sum_list_with (λ row, size (job_skills row)) rows) ∧
  ∀ row, row ∈ rows →
    dom (Nx.adj_of g (job_node row))
    = {[company_node row]} ∪ list_to_set (skill_node <$> skills_of row) ∧
    Nx.edge_attr g (job_node row) (company_node row) "relation" = Some "POSTED_BY" ∧
    ∀ s, s ∈ skills_of row →
         Nx.edge_attr g (job_node row) (skill_node s) "relation"
         = Some "REQUIRES_SKILL".
Proof.
induction rows as [|row rows IH] using rev_ind; intros Hnodup; cbv zeta.
- split; [apply simple_empty|]. split; [done|].
  intros row Hrow. by apply elem_of_nil in Hrow.
- rewrite fmap_app in Hnodup. apply NoDup_app in Hnodup as (Hnd & Hnew & _).
  destruct (IH Hnd) as (Hg & Hdeg & Hrows).
  unfold build_graph in *. rewrite foldl_snoc.
  fold (build_graph rows) in *. set (g := build_graph rows) in *.
  assert (Hid : job_id row ∉ job_id <$> rows).
  { intros Hin. apply (Hnew _ Hin). apply list_elem_of_singleton. done. }
  assert (Hfresh : Nx.g_node g !! job_node row = None).
  { apply not_elem_of_dom. unfold g. rewrite build_graph_nodes.
    by apply job_node_fresh. }
  destruct (add_row_shape g row Hg Hfresh)
    as (Hg' & Hdeg' & Hdom' & Hpost' & Hreq' & Hoth').
  split; [done|]. split.
  + rewrite Hdeg', Hdeg, length_app, sum_list_with_app. simpl. lia.
  + intros r [Hr | ->%list_elem_of_singleton]%elem_of_app; [|done].
    assert (Hsame : Nx.adj_of (add_row g row) (job_node r) = Nx.adj_of g (job_node r)).
    { apply Hoth'; [apply prefix_type_job|].
      intros Heq. apply append_inj in Heq. apply Hid. rewrite <- Heq.
      by apply list_elem_of_fmap_2. }
    unfold Nx.edge_attr. rewrite Hsame. apply (Hrows r Hr).
Qed.

(** The node ids of the dataset fall into three classes that do not
    meet: under distinct job ids there are as many as jobs, distinct
    companies and distinct skills. *)
Lemma dataset_nodes_size rows :
  NoDup (job_id <$> rows) →
  size (dataset_nodes rows)
  = length rows + size (all_companies rows) + size (all_skills rows).
Proof.
intros Hnd. unfold dataset_nodes, all_companies, all_skills.
assert (Hjobs : size (list_to_set (job_node <$> rows) : gset string) = length rows).
{ rewrite size_list_to_set, length_fmap; [done|].
  assert (job_node <$> rows = String.append "job_" <$> (job_id <$> rows)) as ->
    by by rewrite <- list_fmap_compose.
  apply NoDup_fmap_2; [apply append_inj | done]. }
assert (Hcomp : size (list_to_set (company_node <$> rows) : gset string)
                = size (list_to_set (company <$> rows) : gset string)).
{ assert (company_node <$> rows = String.append "company_" <$> (company <$> rows)) as ->
    by by rewrite <- list_fmap_compose.
  apply size_tagged. }
assert (Hskill : size (list_to_set (skill_node <$> (rows ≫= skills_of)) : gset string)
                 = size (list_to_set (rows ≫= skills_of) : gset string))
  by apply size_tagged.
assert (Hjc : (list_to_set (job_node <$> rows) : gset string)
               ## list_to_set (company_node <$> rows)).
{ intros x Hx Hy. apply elem_of_list_to_set, list_elem_of_fmap in Hx as (r & -> & _).
  by apply elem_of_list_to_set, list_elem_of_fmap in Hy as (r' & Hy & _). }
assert (Hjcs : (list_to_set (job_node <$> rows) ∪ list_to_set (company_node <$> rows)
                : gset string)
               ## list_to_set (skill_node <$> (rows ≫= skills_of))).
{ intros x Hx Hy. apply skill_nodes_prefix in Hy.
  apply elem_of_union in Hx as [Hx|Hx];
    apply elem_of_list_to_set, list_elem_of_fmap in Hx as (r & -> & _); done. }
by rewrite !size_union, Hjobs, Hcomp, Hskill.
Qed.

(** C8.  For a dataset whose rows have distinct job ids, the rebuilt
    graph has exactly the nodes the dataset names, one for each job, one
    for each distinct company and one for each distinct skill, each typed
    by its prefix; each job is adjacent to its company, by an edge
    labelled POSTED_BY, and to each of its skills, by an edge labelled
    REQUIRES_SKILL, and to nothing else; and the graph has as many edges
    as jobs plus the numbers of distinct skills of the jobs. *)
Theorem rebuilt_graph_shape rows :
  NoDup (job_id <$> rows) →
  let g := build_graph rows in
  dom (Nx.g_node g) = dataset_nodes rows ∧
  (∀ n, n ∈ dataset_nodes rows → Nx.node_attr g n "type" = prefix_type n) ∧
  Nx.number_of_nodes g
  = length rows + size (all_companies rows) + size (all_skills rows) ∧
  (∀ row, row ∈ rows →
     dom (Nx.adj_of g (job_node row))
     = {[company_node row]} ∪ list_to_set (skill_node <$> skills_of row) ∧
     Nx.edge_attr g (job_node row) (company_node row) "relation" = Some "POSTED_BY" ∧
     ∀ s, s ∈ skills_of row →
          Nx.edge_attr g (job_node row) (skill_node s) "relation"
          = Some "REQUIRES_SKILL") ∧
  Nx.number_of_edges g
  = length rows + sum_list_with (λ row, size (job_skills row)) rows.
Proof.
intros Hnd. cbv zeta.
destruct (build_graph_shape rows Hnd) as (Hg & Hdeg & Hrows).
split; [apply build_graph_nodes|]. split; [|split; [|split; [done|]]].
- intros n Hn. rewrite <- build_graph_nodes in Hn.
  apply elem_of_dom in Hn as [d Hd]. unfold Nx.node_attr. rewrite Hd. simpl.
  by apply (build_graph_typed rows).
- unfold Nx.number_of_nodes. rewrite <- size_dom, build_graph_nodes.
  by apply dataset_nodes_size.
- unfold Nx.number_of_edges. rewrite Hdeg, Nat.mul_comm. by apply Nat.div_mul.
Qed.

(** *** Calls that return *)

Lemma log_and_persist_succeeds node_name node_type log w :
  log_file w = Some log → faults w = [] →
  succeeded (log_and_persist node_name node_type w) = true.
Proof.
intros Hlog Hf.
unfold log_and_persist, log_new_node, mbind, M_bind, bind, load_log, dump_log,
  write_gpickle, dump_embeddings, gets.
rewrite Hlog. rewrite write_file_no_fault by done. simpl.
rewrite write_file_no_fault by done. simpl.
rewrite write_file_no_fault by done. done.
Qed.

(** With a valid type, a loadable log file, no failing write and one
    dimension store-wide, [add_node_with_neighbors] returns. *)
Lemma add_node_with_neighbors_succeeds node_name node_type neighbors d log w :
  node_type ∈ ["job"; "skill"; "company"] →
  dimension_is d (embeddings w) →
  log_file w = Some log → faults w = [] →
  succeeded (add_node_with_neighbors node_name node_type neighbors w) = true.
Proof.
intros Hty Hdim Hlog Hf. rewrite add_node_with_neighbors_run by done. cbv zeta.
assert (Hvec : ∃ vec s, embedding_of_neighbors (embeddings w) (rng w) neighbors
                        = (Ok vec, s)).
{ destruct (valid_neighbors (embeddings w) neighbors) as [|n valid] eqn:Hv.
  - unfold embedding_of_neighbors. rewrite Hv. eauto.
  - rewrite (embedding_of_neighbors_mean d) by (done || by rewrite Hv). eauto. }
destruct Hvec as (vec & s & ->). simpl.
by apply (log_and_persist_succeeds _ _ log).
Qed.

(** With a readable dataset, a training that ends and no failing write,
    [nightly_retrain] returns. *)
Lemma nightly_retrain_succeeds rows wv w :
  jobs_csv w = Some rows → node2vec_fit (build_graph rows) = Some wv →
  faults w = [] →
  succeeded (nightly_retrain w) = true.
Proof.
intros Hrows Hfit Hf.
unfold nightly_retrain, mbind, M_bind, bind, read_csv. rewrite Hrows, Hfit.
unfold write_gpickle, dump_embeddings, dump_log, modify.
rewrite write_file_no_fault by done. simpl.
rewrite write_file_no_fault by done. simpl.
rewrite write_file_no_fault by done. done.
Qed.

(** *** Embedding completeness *)

Context {LS : LibrariesSized L}.

Lemma embedding_of_neighbors_length e s neighbors vec :
  dimension_is 32 e →
  (embedding_of_neighbors e s neighbors).1 = Ok vec → length vec = 32.
Proof.
  intros He. destruct (valid_neighbors e neighbors) as [|n valid] eqn:Hv.
  - unfold embedding_of_neighbors. rewrite Hv. simpl. intros [= <-].
    apply np_random_normal_length.
  - rewrite (embedding_of_neighbors_mean 32) by (done || by rewrite Hv).
    simpl. intros [= <-]. apply elementwise_mean_length.
Qed.

(** C1, as the code has it.  In a store whose embeddings all have
    dimension 32, a call of [add_node_with_neighbors] that returns
    leaves the inserted node with one embedding of dimension 32, keeps
    dimension 32 store-wide and leaves the entry of every other id as it
    was, so that a neighbour the call creates has none.  A rebuild that
    returns leaves every node of the graph, and nothing else, with one
    embedding of dimension 32. *)
Theorem inserted_and_rebuilt_nodes_have_embeddings w :
  (∀ node_name node_type neighbors,
     dimension_is 32 (embeddings w) →
     succeeded (add_node_with_neighbors node_name node_type neighbors w) = true →
     let w' := (add_node_with_neighbors node_name node_type neighbors w).2 in
     (∃ vec, get_embedding w' node_name = Some vec ∧ length vec = 32) ∧
     dimension_is 32 (embeddings w') ∧
     ∀ n, n ≠ node_name → get_embedding w' n = get_embedding w n) ∧
  (succeeded (nightly_retrain w) = true →
     let w' := (nightly_retrain w).2 in
     dimension_is 32 (embeddings w') ∧
     ∀ n, is_Some (get_node w' n) ↔ is_Some (get_embedding w' n)).
Proof.
  split.
  - intros node_name node_type neighbors Hdim Hok.
    apply succeeded_Ok in Hok as [[] Hrun]. rewrite Hrun. simpl.
    apply add_node_with_neighbors_Ok in Hrun
      as (vec & log & fs & _ & Hvec & _ & ->).
    unfold get_embedding. simpl.
    assert (Hlen : length vec = 32) by by eapply embedding_of_neighbors_length.
    split; [|split].
    + exists vec. by rewrite lookup_insert_eq.
    + by apply map_Forall_insert_2.
    + intros n Hne. by rewrite lookup_insert_ne.
  - intros Hok. apply succeeded_Ok in Hok as [[] Hrun]. rewrite Hrun. simpl.
    apply nightly_retrain_Ok in Hrun as (rows & wv & fs & _ & Hfit & ->).
    unfold get_node, get_embedding. simpl. split.
    + intros n vec. rewrite embeddings_of_lookup.
      destruct (Nx.g_node (build_graph rows) !! n); simpl; [|done].
      intros [= <-]. by eapply node2vec_fit_dimension.
    + intros n. rewrite embeddings_of_lookup. by rewrite fmap_is_Some.
Qed.

End Properties.

(** * The theorems at work, and where the code parts from its description *)

Lemma sample_libraries_sized : LibrariesSized sample_libraries.
Proof.
  split.
  - intros s n. simpl. apply length_replicate.
  - intros g wv n [= <-]. reflexivity.
Qed.

(** C1 fails for a neighbour the call creates: after inserting
    ["job_42"] next to the unknown ["skill_Go"] into an empty store the
    call has returned, ["skill_Go"] is a node of the graph, typed by its
    prefix, and it has no embedding. *)
Lemma created_neighbor_has_no_embedding :
  let r := add_node_with_neighbors (L := sample_libraries)
             "job_42" "job" ["skill_Go"] fresh_world in
  succeeded r = true ∧
  get_node r.2 "skill_Go" = Some {["type" := "skill"]} ∧
  get_embedding r.2 "skill_Go" = None.
Proof. vm_compute. repeat split; reflexivity. Qed.

Lemma inserted_and_rebuilt_nodes_have_embeddings_witness :
  let w' := (add_node_with_neighbors (L := sample_libraries)
               "job_42" "job" ["skill_Go"] fresh_world).2 in
  (∃ vec, get_embedding w' "job_42" = Some vec ∧ length vec = 32) ∧
  dimension_is 32 (embeddings w') ∧
  ∀ n, n ≠ "job_42" → get_embedding w' n = get_embedding fresh_world n.
Proof.
  apply (proj1 (inserted_and_rebuilt_nodes_have_embeddings
                  (L := sample_libraries) (LS := sample_libraries_sized) fresh_world)
               "job_42" "job" ["skill_Go"]).
  - apply map_Forall_empty.
  - vm_compute. reflexivity.
Defined.

(** C2 fails when a write fails: the log file is written, then writing
    the graph file raises.  The call has failed, and yet the node is in
    the graph of the memory with its embedding, and its entry is in the
    log file. *)
Lemma failed_insert_is_not_rolled_back :
  let w := faulty_world [IoOk; IoFailOpen] in
  let r := add_node_with_neighbors (L := sample_libraries) "job_1" "job" [] w in
  r.1 = Raise (OSError KG_FILE) ∧
  get_node w "job_1" = None ∧
  get_node r.2 "job_1" = Some {["type" := "job"]} ∧
  get_embedding r.2 "job_1" = Some (replicate 32 0.0078125%float) ∧
  log_file r.2 = Some [("job_1", "job")].
Proof. vm_compute. repeat split; reflexivity. Qed.

Lemma insert_success_persists_all_witness :
  let r := add_node_with_neighbors (L := sample_libraries)
             "job_42" "job" ["skill_Go"] fresh_world in
  succeeded r = true ∧
  is_Some (get_node r.2 "job_42") ∧
  (∀ n, n ∈ ["skill_Go"] → Nx.has_edge (G r.2) "job_42" n = true) ∧
  is_Some (get_embedding r.2 "job_42") ∧
  (∃ log, log_file fresh_world = Some log ∧
          log_file r.2 = Some (log ++ [("job_42", "job")])) ∧
  kg_file r.2 = Some (G r.2) ∧
  emb_file r.2 = Some (embeddings r.2).
Proof.
  split; [vm_compute; reflexivity|].
  apply (insert_success_persists_all (L := sample_libraries)
           "job_42" "job" ["skill_Go"] fresh_world).
  vm_compute. reflexivity.
Defined.

(** C3 fails when the second of the two writes fails.  After an
    insertion whose write of the embeddings file raises, the graph file
    holds the new node and the embeddings file still holds the old table,
    without it; after a rebuild whose write of the embeddings file breaks
    off, the graph file holds the new graph and the embeddings file
    nothing loadable. *)
Lemma snapshot_files_can_part :
  (let r := add_node_with_neighbors (L := sample_libraries) "job_1" "job" []
              (saved_world [IoOk; IoOk; IoFailOpen]) in
   r.1 = Raise (OSError EMBEDDINGS_FILE) ∧
   (kg_file r.2 ≫= λ g, Nx.g_node g !! "job_1") = Some {["type" := "job"]} ∧
   emb_file r.2 = Some ∅) ∧
  (let r := nightly_retrain (L := sample_libraries)
              (world_with_jobs three_jobs (saved_world [IoOk; IoFailWrite])) in
   r.1 = Raise (OSError EMBEDDINGS_FILE) ∧
   kg_file r.2 = Some (build_graph three_jobs) ∧
   emb_file r.2 = None).
Proof. vm_compute. repeat split; reflexivity. Qed.

Lemma success_persists_matching_snapshot_witness :
  let op := add_node_with_neighbors (L := sample_libraries)
              "job_42" "job" ["skill_Go"] in
  succeeded (op fresh_world) = true ∧
  kg_file (op fresh_world).2 = Some (G (op fresh_world).2) ∧
  emb_file (op fresh_world).2 = Some (embeddings (op fresh_world).2).
Proof.
  split; [vm_compute; reflexivity|].
  apply (success_persists_matching_snapshot (L := sample_libraries)).
  - left. by exists "job_42", "job", ["skill_Go"].
  - vm_compute. reflexivity.
Defined.

(** C4 fails at the loop.  With no dataset to read, or with a trainer
    that fails, the first due wake-up ends the loop with the exception of
    the rebuild: the second due wake-up is never reached. *)
Lemma failed_rebuild_ends_the_loop :
  main_loop (L := sample_libraries) [true; true] fresh_world
  = (Raise (OSError JOBS_FILE), fresh_world) ∧
  main_loop (L := failing_trainer) [true; true] (world_with_jobs three_jobs fresh_world)
  = (Raise TrainingError, world_with_jobs three_jobs fresh_world).
Proof. vm_compute. split; reflexivity. Qed.

Lemma rebuild_failure_aborts_and_ends_loop_witness :
  ∃ e,
    nightly_retrain (L := sample_libraries) fresh_world = (Raise e, fresh_world) ∧
    ∀ idle later,
      main_loop (L := sample_libraries) (replicate idle false ++ true :: later)
        fresh_world
      = (Raise e, fresh_world).
Proof.
  apply (rebuild_failure_aborts_and_ends_loop (L := sample_libraries) fresh_world).
  left. reflexivity.
Defined.

(** C5 fails at the prefix: ["skill_Go"] is accepted as a job and
    stored as one, and a second call makes the same node a company. *)
Lemma prefix_is_not_checked_and_type_changes :
  let r1 := add_node_with_neighbors (L := sample_libraries)
              "skill_Go" "job" [] fresh_world in
  let r2 := add_node_with_neighbors (L := sample_libraries)
              "skill_Go" "company" [] r1.2 in
  succeeded r1 = true ∧
  prefix_type "skill_Go" = Some "skill" ∧
  Nx.node_attr (G r1.2) "skill_Go" "type" = Some "job" ∧
  succeeded r2 = true ∧
  Nx.node_attr (G r2.2) "skill_Go" "type" = Some "company".
Proof. vm_compute. repeat split; reflexivity. Qed.

Lemma type_is_checked_prefix_is_not_witness :
  add_node_with_neighbors (L := sample_libraries) "job_1" "manager" [] fresh_world
  = (Raise (ValueError "Invalid node type: manager"), fresh_world).
Proof.
  apply (proj1 (type_is_checked_prefix_is_not (L := sample_libraries)
                  "job_1" "manager" [] fresh_world)).
  vm_compute. intros H. repeat (apply elem_of_cons in H as [H|H]; [discriminate|]).
  by apply elem_of_nil in H.
Defined.

(** C6 at a concrete call: the neighbour ["golang"] of ["job_1"]. *)
Lemma unknown_prefix_neighbor_is_untyped_witness :
  let w' := (add_node_with_neighbors (L := sample_libraries)
               "job_1" "job" ["golang"] fresh_world).2 in
  Nx.has_edge (G w') "job_1" "golang" = true ∧
  get_node w' "golang" = Some ∅ ∧
  Nx.node_attr (G w') "golang" "type" = None.
Proof.
  apply (unknown_prefix_neighbor_is_untyped (L := sample_libraries)
           "job_1" "job" ["golang"] "golang" fresh_world).
  - apply elem_of_cons. by left.
  - apply elem_of_cons. by left.
  - reflexivity.
  - discriminate.
  - reflexivity.
Defined.

Lemma skilled_world_dimension : dimension_is 32 (embeddings skilled_world).
Proof.
unfold skilled_world, dimension_is. simpl.
repeat (apply map_Forall_insert_2; [reflexivity|]). apply map_Forall_empty.
Qed.

(** C7 at the call of the specification: two neighbours with known
    embeddings. *)
Lemma insert_embedding_is_neighbor_mean_witness :
  dimension_is 32 (embeddings skilled_world) ∧
  let w' := (add_node_with_neighbors (L := sample_libraries)
               "job_42" "job" ["skill_Go"; "skill_Rust"] skilled_world).2 in
  ∃ vecs,
    Forall2 (λ n vec, get_embedding skilled_world n = Some vec)
            (filter (λ n, is_Some (get_embedding skilled_world n))
                    ["skill_Go"; "skill_Rust"]) vecs ∧
    get_embedding w' "job_42" = Some (elementwise_mean 32 vecs) ∧
    ∀ i, i < 32 →
         elementwise_mean 32 vecs !! i
         = Some (PrimFloat.div (fsum (column i vecs)) (Np.of_count (length vecs))).
Proof.
split; [apply skilled_world_dimension|].
apply (insert_embedding_is_neighbor_mean (L := sample_libraries)
         "job_42" "job" ["skill_Go"; "skill_Rust"] 32 skilled_world).
- apply elem_of_cons. by left.
- apply skilled_world_dimension.
- exists "skill_Go". split; [apply elem_of_cons; by left|].
  vm_compute. eexists. reflexivity.
Defined.

(** The same call, computed: with all components of the one neighbour 1
    and of the other 4, all components of the node are 2.5. *)
Example two_neighbor_mean :
  get_embedding (add_node_with_neighbors (L := sample_libraries)
                   "job_42" "job" ["skill_Go"; "skill_Rust"] skilled_world).2 "job_42"
  = Some (replicate 32 2.5%float).
Proof. vm_compute. reflexivity. Qed.

(** C8 on three rows: three jobs, two companies, and three skills, one
    of them listed twice by the third job. *)
Lemma rebuilt_graph_shape_witness :
  NoDup (job_id <$> three_jobs) ∧
  Nx.number_of_nodes (build_graph three_jobs) = 3 + 2 + 3 ∧
  Nx.number_of_edges (build_graph three_jobs) = 3 + (2 + 1 + 2).
Proof.
assert (Hnd : NoDup (job_id <$> three_jobs)).
{ apply (bool_decide_eq_true_1 (NoDup (job_id <$> three_jobs))). vm_compute. reflexivity. }
split; [exact Hnd|].
destruct (rebuilt_graph_shape three_jobs Hnd) as (_ & _ & Hnodes & _ & Hedges).
split.
- rewrite Hnodes. vm_compute. reflexivity.
- rewrite Hedges. vm_compute. reflexivity.
Defined.

(** C9 after an insertion: ["job_42"] is inserted, then the rebuild
    runs on a dataset that does not name it. *)
Lemma rebuild_supersedes_witness :
  let w := (add_node_with_neighbors (L := sample_libraries)
              "job_42" "job" ["skill_Go"] (world_with_jobs three_jobs fresh_world)).2 in
  let w' := (nightly_retrain (L := sample_libraries) w).2 in
  is_Some (get_node w "job_42") ∧
  succeeded (nightly_retrain (L := sample_libraries) w) = true ∧
  get_node w' "job_42" = None ∧
  get_embedding w' "job_42" = None ∧
  log_file w' = Some [].
Proof.
cbv zeta.
set (w := (add_node_with_neighbors (L := sample_libraries)
             "job_42" "job" ["skill_Go"] (world_with_jobs three_jobs fresh_world)).2).
assert (Hok : succeeded (nightly_retrain (L := sample_libraries) w) = true)
  by (vm_compute; reflexivity).
split; [vm_compute; eexists; reflexivity|]. split; [exact Hok|].
destruct (rebuild_supersedes (L := sample_libraries) w Hok)
  as (rows & wv & Hrows & _ & _ & _ & _ & _ & Habsent & Hlog).
assert (rows = three_jobs) as ->.
{ vm_compute in Hrows. injection Hrows as <-. reflexivity. }
assert (Hnot : "job_42" ∉ dataset_nodes three_jobs).
{ rewrite <- build_graph_nodes. apply not_elem_of_dom. vm_compute. reflexivity. }
destruct (Habsent _ Hnot) as [Hnode Hemb]. by repeat split.
Defined.

(** C10 at a call that lists one neighbour twice. *)
Lemma duplicate_neighbor_counts_each_time_witness :
  let neighbors := ["skill_Go"; "skill_Go"; "skill_Rust"] in
  let w' := (add_node_with_neighbors (L := sample_libraries)
               "job_42" "job" neighbors skilled_world).2 in
  Nx.number_of_edges_between (G w') "job_42" "skill_Go" = 1 ∧
  dom (Nx.adj_of (G w') "job_42")
  = dom (Nx.adj_of (Nx.add_node "job_42" {["type" := "job"]} (G skilled_world)) "job_42")
    ∪ list_to_set neighbors ∧
  ∃ valid vecs,
    valid = filter (λ m, is_Some (get_embedding skilled_world m)) neighbors ∧
    length (filter ("skill_Go" =.) valid) = 2 ∧
    Forall2 (λ m vec, get_embedding skilled_world m = Some vec) valid vecs ∧
    get_embedding w' "job_42" = Some (elementwise_mean 32 vecs).
Proof.
apply (duplicate_neighbor_counts_each_time (L := sample_libraries)
         "job_42" "job" ["skill_Go"; "skill_Go"; "skill_Rust"] "skill_Go" 2 32
         skilled_world).
- apply elem_of_cons. by left.
- apply skilled_world_dimension.
- vm_compute. eexists. reflexivity.
- vm_compute. reflexivity.
- lia.
Defined.

(** The same call, computed: the node has two neighbours and its
    components are (1 + 1 + 4) / 3 = 2, not the (1 + 4) / 2 = 2.5 of a
    mean over the two distinct neighbours. *)
Example duplicate_neighbor_mean :
  let w' := (add_node_with_neighbors (L := sample_libraries)
               "job_42" "job" ["skill_Go"; "skill_Go"; "skill_Rust"] skilled_world).2 in
  Nx.degree_of "job_42" (Nx.adj_of (G w') "job_42") = 2 ∧
  get_embedding w' "job_42" = Some (replicate 32 2%float) ∧
  elementwise_mean 32 [replicate 32 1%float; replicate 32 4%float]
  = replicate 32 2.5%float.
Proof. vm_compute. repeat split; reflexivity. Qed.

(** * Further properties of the code *)

Section Further.

Context `{L : Libraries}.

(** ** Calls that return *)

Lemma embedding_of_neighbors_Ok d e s neighbors :
  dimension_is d e → ∃ vec, (embedding_of_neighbors e s neighbors).1 = Ok vec.
Proof.
intros He. destruct (valid_neighbors e neighbors) as [|n valid] eqn:Hv.
- unfold embedding_of_neighbors. rewrite Hv. simpl. eauto.
- rewrite (embedding_of_neighbors_mean d) by (done || by rewrite Hv). simpl. eauto.
Qed.

(** The end of the body when the log file can be read and no write
    fails. *)
Lemma log_and_persist_no_fault node_name node_type w log :
  log_file w = Some log → faults w = [] →
  log_and_persist node_name node_type w
  = (Ok tt, set_emb_file (Some (embeddings w))
              (set_kg_file (Some (G w))
                 (set_log_file (Some (log ++ [(node_name, node_type)])) w))).
Proof.
intros Hlog Hfaults.
unfold log_and_persist, log_new_node, mbind, M_bind, bind, load_log, gets,
  dump_log, write_gpickle, dump_embeddings, write_file.
rewrite Hlog. simpl. rewrite Hfaults. simpl. rewrite Hfaults. simpl.
by rewrite Hfaults.
Qed.

(** X1.  A call of [add_node_with_neighbors] returns whenever the type
    is one of the three, the log file can be read, no write fails and the
    embeddings of the store all have one dimension. *)
Theorem insert_returns node_name node_type neighbors d w :
  node_type ∈ ["job"; "skill"; "company"] →
  is_Some (log_file w) → faults w = [] →
  dimension_is d (embeddings w) →
  succeeded (add_node_with_neighbors node_name node_type neighbors w) = true.
Proof.
intros Hty [log Hlog] Hfaults Hdim.
rewrite add_node_with_neighbors_run by done. cbv zeta.
destruct (embedding_of_neighbors_Ok d (embeddings w) (rng w) neighbors Hdim)
  as [vec Hvec].
rewrite Hvec. by erewrite log_and_persist_no_fault.
Qed.


(** ** Restarting *)

Lemma load_store_matching w :
  kg_file w = Some (G w) → emb_file w = Some (embeddings w) →
  load_store w = (Ok tt, w).
Proof.
intros Hkg Hemb. unfold load_store, modify. rewrite Hkg, Hemb. by destruct w.
Qed.

(** X3.  After an insertion or a rebuild that returned, loading the
    snapshot, as the module does when it starts, gives back the graph and
    the embeddings of the memory and changes nothing. *)
Theorem restart_restores_store (op : M unit) w :
  (∃ node_name node_type neighbors,
      op = add_node_with_neighbors node_name node_type neighbors)
  ∨ op = nightly_retrain →
  succeeded (op w) = true →
  load_store (op w).2 = (Ok tt, (op w).2).
Proof.
intros [(node_name & node_type & neighbors & ->) | ->] Hok;
  apply succeeded_Ok in Hok as [[] Hrun]; rewrite Hrun; simpl.
- apply add_node_with_neighbors_Ok in Hrun as (vec & log & fs & _ & _ & _ & ->).
  by apply load_store_matching.
- apply nightly_retrain_Ok in Hrun as (rows & wv & fs & _ & _ & ->).
  by apply load_store_matching.
Qed.

(** The end of the body when the log entry and the graph file are
    written and the third write, of the embeddings file, goes as [f]
    says. *)
Lemma log_and_persist_third_write node_name node_type w log f fs :
  log_file w = Some log → faults w = IoOk :: IoOk :: f :: fs →
  let w2 := set_kg_file (Some (G w))
              (set_log_file (Some (log ++ [(node_name, node_type)]))
                 (set_faults fs w)) in
  log_and_persist node_name node_type w
  = match f with
    | IoOk => (Ok tt, set_emb_file (Some (embeddings w)) w2)
    | IoFailOpen => (Raise (OSError EMBEDDINGS_FILE), w2)
    | IoFailWrite => (Raise (OSError EMBEDDINGS_FILE), set_emb_file None w2)
    end.
Proof.
intros Hlog Hfaults.
unfold log_and_persist, log_new_node, mbind, M_bind, bind, load_log, gets,
  dump_log, write_gpickle, dump_embeddings, write_file.
rewrite Hlog. simpl. rewrite Hfaults. simpl. destruct f; by destruct w.
Qed.

(** X4.  An insertion whose write of the embeddings file fails, and the
    start after it.  When the file could not be opened, the start loads
    the new graph with the embeddings of the old file, in which the
    inserted node has no entry unless it had one; when the write broke
    off, the start finds no embeddings to load and comes up empty, the
    graph file notwithstanding. *)
Theorem restart_after_torn_snapshot node_name node_type neighbors d w f fs old :
  node_type ∈ ["job"; "skill"; "company"] →
  is_Some (log_file w) → dimension_is d (embeddings w) →
  emb_file w = Some old →
  faults w = IoOk :: IoOk :: f :: fs → f ≠ IoOk →
  let r := add_node_with_neighbors node_name node_type neighbors w in
  let w' := (load_store r.2).2 in
  r.1 = Raise (OSError EMBEDDINGS_FILE) ∧
  match f with
  | IoFailWrite => G w' = Nx.empty ∧ embeddings w' = ∅
  | _ => G w' = inserted_graph node_name node_type neighbors (G w) ∧
         embeddings w' = old
  end.
Proof.
intros Hty [log Hlog] Hdim Hold Hfaults Hf. cbv zeta.
rewrite add_node_with_neighbors_run by done. cbv zeta.
destruct (embedding_of_neighbors_Ok d (embeddings w) (rng w) neighbors Hdim)
  as [vec Hvec].
rewrite Hvec.
erewrite log_and_persist_third_write by (simpl; done).
destruct f; [done| |]; simpl; unfold load_store, modify; simpl.
- split; [done|]. by rewrite Hold.
- done.
Qed.

(** ** Failures of an insertion *)


Lemma mean_axis0_ragged rows r1 r2 :
  r1 ∈ rows → r2 ∈ rows → length r1 ≠ length r2 → Np.mean_axis0 rows = None.
Proof.
intros H1 H2 Hne. destruct rows as [|r rs]; [done|]. unfold Np.mean_axis0.
destruct (forallb _ rs) eqn:Hall; [|done]. exfalso.
rewrite forallb_forall in Hall.
assert (Hlen : ∀ x, x ∈ r :: rs → length x = length r).
{ intros x [->|Hx]%elem_of_cons; [done|].
  apply Nat.eqb_eq, Hall. by apply list_elem_of_In. }
apply Hne. by rewrite (Hlen r1), (Hlen r2).
Qed.

Lemma neighbor_vecs_elem e neighbors n vec :
  n ∈ neighbors → e !! n = Some vec →
  vec ∈ neighbor_vecs e (valid_neighbors e neighbors).
Proof.
intros Hin Hn.
assert (Hv : n ∈ valid_neighbors e neighbors) by (apply list_elem_of_filter; eauto).
pose proof (neighbor_vecs_valid e neighbors) as HF.
apply list_elem_of_lookup in Hv as [i Hi].
destruct (Forall2_lookup_l _ _ _ _ _ HF Hi) as (vec' & Hvec' & Heq).
simpl in Heq. assert (vec' = vec) as -> by congruence.
by eapply list_elem_of_lookup_2.
Qed.

(** X6.  When two listed neighbours have embeddings of different lengths,
    numpy cannot stack them: a call with a valid type raises after it has
    changed the graph of the memory, and the embeddings, the log file and
    the snapshot files are as they were. *)
Theorem insert_with_ragged_embeddings node_name node_type neighbors n1 n2 v1 v2 w :
  node_type ∈ ["job"; "skill"; "company"] →
  n1 ∈ neighbors → n2 ∈ neighbors →
  get_embedding w n1 = Some v1 → get_embedding w n2 = Some v2 →
  length v1 ≠ length v2 →
  let r := add_node_with_neighbors node_name node_type neighbors w in
  r.1 = Raise (ValueError "inhomogeneous shape") ∧
  G r.2 = inserted_graph node_name node_type neighbors (G w) ∧
  embeddings r.2 = embeddings w ∧
  log_file r.2 = log_file w ∧ kg_file r.2 = kg_file w ∧ emb_file r.2 = emb_file w.
Proof.
intros Hty Hin1 Hin2 Hv1 Hv2 Hne. cbv zeta.
rewrite add_node_with_neighbors_run by done. cbv zeta.
assert (Hmean : Np.mean_axis0
                  (neighbor_vecs (embeddings w)
                     (valid_neighbors (embeddings w) neighbors)) = None).
{ apply (mean_axis0_ragged _ v1 v2);
    [by apply (neighbor_vecs_elem _ _ n1) | by apply (neighbor_vecs_elem _ _ n2) | done]. }
assert (Hvalid : valid_neighbors (embeddings w) neighbors ≠ []).
{ intros Hnil. assert (n1 ∈ valid_neighbors (embeddings w) neighbors) as Hv.
  { apply list_elem_of_filter. split; [|done]. unfold get_embedding in Hv1. eauto. }
  rewrite Hnil in Hv. by apply elem_of_nil in Hv. }
unfold embedding_of_neighbors.
destruct (valid_neighbors (embeddings w) neighbors) as [|m valid] eqn:Hv; [done|].
rewrite Hmean. simpl. by destruct w.
Qed.

(** ** The generator *)

(** X7.  A call that returns has drawn from the generator exactly when no
    listed neighbour has an embedding, the empty list of neighbours
    included: then the node gets the 32 numbers drawn, and otherwise the
    generator is left as it was. *)
Theorem generator_is_used_for_cold_starts_only node_name node_type neighbors w :
  succeeded (add_node_with_neighbors node_name node_type neighbors w) = true →
  let w' := (add_node_with_neighbors node_name node_type neighbors w).2 in
  ((∀ n, n ∈ neighbors → get_embedding w n = None) →
     get_embedding w' node_name = Some (np_random_normal (rng w) 32) ∧
     rng w' = S (rng w)) ∧
  ((∃ n, n ∈ neighbors ∧ is_Some (get_embedding w n)) → rng w' = rng w).
Proof.
intros Hok. apply succeeded_Ok in Hok as [[] Hrun]. rewrite Hrun. simpl.
apply add_node_with_neighbors_Ok in Hrun as (vec & log & fs & _ & Hvec & _ & ->).
unfold get_embedding. simpl. rewrite lookup_insert_eq.
unfold embedding_of_neighbors in *.
destruct (valid_neighbors (embeddings w) neighbors) as [|m valid] eqn:Hv.
- simpl in *. injection Hvec as <-. split; [done|].
  intros (n & Hin & Hn). assert (n ∈ valid_neighbors (embeddings w) neighbors) as H.
  { by apply list_elem_of_filter. }
  rewrite Hv in H. by apply elem_of_nil in H.
- split.
  + intros Hnone. assert (m ∈ valid_neighbors (embeddings w) neighbors) as H
      by (rewrite Hv; left).
    apply list_elem_of_filter in H as [[x Hx] Hm].
    specialize (Hnone m Hm). unfold get_embedding in Hnone. congruence.
  + intros _. by destruct (Np.mean_axis0 _).
Qed.

(** ** Failures of a rebuild *)

(** X8.  The rebuild replaces the graph and the embeddings of the memory only
    after both snapshot files are written: when it raises and it is not
    the last write, that of the log file, that failed, memory and log
    file are as they were. *)
Theorem failed_rebuild_keeps_memory w e :
  (nightly_retrain w).1 = Raise e → e ≠ OSError NEW_NODES_FILE →
  let w' := (nightly_retrain w).2 in
  G w' = G w ∧ embeddings w' = embeddings w ∧ log_file w' = log_file w.
Proof.
unfold nightly_retrain, mbind, M_bind, bind, read_csv.
destruct w as [g em kf ef lf jc r fl]. simpl.
destruct jc as [rows|]; [|done].
destruct (node2vec_fit _) as [wv|]; [|done].
unfold write_gpickle, dump_embeddings, dump_log, write_file, modify. simpl.
destruct fl as [|[] [|[] [|[] fs]]]; simpl; intros H Hne; simplify_eq; done.
Qed.

(** ** The nodes an insertion touches *)

Lemma connect_neighbors_dom node_name neighbors g :
  is_Some (Nx.g_node g !! node_name) →
  dom (Nx.g_node (connect_neighbors node_name neighbors g))
  = list_to_set neighbors ∪ dom (Nx.g_node g).
Proof.
unfold connect_neighbors. revert g.
induction neighbors as [|n ns IH]; intros g [d Hd]; simpl.
- set_solver.
- rewrite IH by (exists d; by apply add_edge_node_Some, ensure_neighbor_node_Some).
  rewrite add_edge_dom.
  assert (Hname : node_name ∈ dom (Nx.g_node g)) by by apply elem_of_dom_2 in Hd.
  assert (Hens : dom (Nx.g_node (ensure_neighbor n g)) = dom (Nx.g_node g)
                 ∨ dom (Nx.g_node (ensure_neighbor n g)) = {[n]} ∪ dom (Nx.g_node g)).
  { unfold ensure_neighbor. repeat case_match; rewrite ?add_node_dom; auto. }
  destruct Hens as [-> | ->]; clear -Hname; set_solver.
Qed.

(** X9.  Whatever the outcome of a call with a valid type, the nodes of the
    graph afterwards are those it had, the node and the listed
    neighbours, and every node other than the inserted one that was there
    keeps its attributes. *)
Theorem insert_touches_node_and_neighbors_only node_name node_type neighbors w :
  node_type ∈ ["job"; "skill"; "company"] →
  let w' := (add_node_with_neighbors node_name node_type neighbors w).2 in
  (∀ m, is_Some (get_node w' m)
        ↔ m = node_name ∨ m ∈ neighbors ∨ is_Some (get_node w m)) ∧
  (∀ m, m ≠ node_name → is_Some (get_node w m) → get_node w' m = get_node w m).
Proof.
intros Hty. cbv zeta.
destruct (add_node_with_neighbors_memory node_name node_type neighbors w Hty)
  as [Hg _].
unfold get_node. rewrite Hg. unfold inserted_graph. split.
- intros m. rewrite <- !elem_of_dom, connect_neighbors_dom, add_node_dom
    by (rewrite add_node_node_eq; eauto).
  rewrite !elem_of_union, elem_of_singleton, elem_of_list_to_set. tauto.
- intros m Hne [d Hd]. rewrite Hd.
  apply connect_neighbors_node_Some. by rewrite add_node_node_ne.
Qed.

(** ** Inserting again *)

(** The attribute dictionary of an edge after [add_edge], in either
    direction, and of every other pair. *)
Lemma add_edge_lookup g u v a x y :
  Nx.adj_of (Nx.add_edge u v a g) x !! y
  = let g1 := Nx.touch v (Nx.touch u g) in
    if decide ((x = u ∧ y = v) ∨ (x = v ∧ y = u))
    then Some (a ∪ default ∅ (Nx.adj_of g1 u !! v))
    else Nx.adj_of g1 x !! y.
Proof.
cbv zeta. unfold Nx.add_edge. set (g1 := Nx.touch v (Nx.touch u g)).
set (dd := a ∪ default ∅ (Nx.adj_of g1 u !! v)).
unfold Nx.adj_of at 1. simpl.
destruct (decide (x = v)) as [->|Hxv].
- rewrite lookup_insert_eq. simpl. destruct (decide (y = u)) as [->|Hyu].
  + rewrite lookup_insert_eq. by rewrite decide_True by auto.
  + rewrite lookup_insert_ne by done. destruct (decide (u = v)) as [->|Huv].
    * rewrite lookup_insert_eq. simpl. rewrite lookup_insert_ne by done.
      rewrite decide_False by naive_solver. done.
    * rewrite lookup_insert_ne by done. rewrite decide_False by naive_solver. done.
- rewrite lookup_insert_ne by done. destruct (decide (x = u)) as [->|Hxu].
  + rewrite lookup_insert_eq. simpl. destruct (decide (y = v)) as [->|Hyv].
    * rewrite lookup_insert_eq. by rewrite decide_True by auto.
    * rewrite lookup_insert_ne by done. rewrite decide_False by naive_solver. done.
  + rewrite lookup_insert_ne by done. rewrite decide_False by naive_solver. done.
Qed.

Lemma add_edge_keeps_linked g u v a x y :
  linked g x y → linked (Nx.add_edge u v a g) x y.
Proof.
intros ([dx Hx] & [dy Hy] & d & Hxy & Hyx). split; [|split].
- exists dx. by apply add_edge_node_Some.
- exists dy. by apply add_edge_node_Some.
- rewrite !add_edge_lookup. cbv zeta.
  assert (Hx1 : Nx.adj_of (Nx.touch v (Nx.touch u g)) x = Nx.adj_of g x).
  { rewrite !touch_adj_present; eauto using touch_node_Some. }
  assert (Hy1 : Nx.adj_of (Nx.touch v (Nx.touch u g)) y = Nx.adj_of g y).
  { rewrite !touch_adj_present; eauto using touch_node_Some. }
  rewrite Hx1, Hy1.
  destruct (decide ((x = u ∧ y = v) ∨ (x = v ∧ y = u))) as [Hc|Hc].
  + rewrite decide_True by tauto. eauto.
  + rewrite decide_False by tauto. eauto.
Qed.

Lemma add_edge_linked g u v a : linked (Nx.add_edge u v a g) u v.
Proof.
split; [|split]; [apply add_edge_endpoints..|].
rewrite !add_edge_lookup. cbv zeta. rewrite !decide_True by auto. eauto.
Qed.

(** Adding, without attributes, an edge that is there changes
    nothing. *)
Lemma add_edge_again g u v : linked g u v → Nx.add_edge u v ∅ g = g.
Proof.
intros (Hu & Hv & d & Huv & Hvu). unfold Nx.add_edge.
rewrite (touch_present g u), (touch_present g v) by done.
rewrite Huv. simpl. rewrite (left_id_L ∅ (∪)).
assert (Hau : Nx.g_adj g !! u = Some (Nx.adj_of g u)).
{ unfold Nx.adj_of in *. destruct (Nx.g_adj g !! u); [done|].
  simpl in Huv. by rewrite lookup_empty in Huv. }
assert (Hav : Nx.g_adj g !! v = Some (Nx.adj_of g v)).
{ unfold Nx.adj_of in *. destruct (Nx.g_adj g !! v); [done|].
  simpl in Hvu. by rewrite lookup_empty in Hvu. }
rewrite (insert_id (Nx.adj_of g u)) by done.
rewrite (insert_id (Nx.g_adj g)) by done.
rewrite Hav. simpl. rewrite (insert_id (Nx.adj_of g v)) by done.
rewrite (insert_id (Nx.g_adj g)) by done. by destruct g.
Qed.

Lemma connect_neighbors_keeps_linked node_name neighbors g n :
  linked g node_name n → linked (connect_neighbors node_name neighbors g) node_name n.
Proof.
unfold connect_neighbors. revert g.
induction neighbors as [|n' ns IH]; intros g Hl; simpl; [done|].
apply IH, add_edge_keeps_linked.
destruct Hl as ([d1 H1] & [d2 H2] & d & Hxy & Hyx). split; [|split].
- eauto using ensure_neighbor_node_Some.
- eauto using ensure_neighbor_node_Some.
- rewrite !ensure_neighbor_adj_present by eauto. eauto.
Qed.

Lemma connect_neighbors_links node_name neighbors g n :
  n ∈ neighbors → linked (connect_neighbors node_name neighbors g) node_name n.
Proof.
revert g. induction neighbors as [|n' ns IH]; intros g Hin.
- by apply elem_of_nil in Hin.
- apply elem_of_cons in Hin as [<-|Hin].
  + apply (connect_neighbors_keeps_linked node_name ns), add_edge_linked.
  + apply (IH _ Hin).
Qed.

Lemma connect_neighbors_again node_name neighbors g :
  (∀ n, n ∈ neighbors → linked g node_name n) →
  connect_neighbors node_name neighbors g = g.
Proof.
unfold connect_neighbors. induction neighbors as [|n ns IH]; intros Hl; simpl; [done|].
assert (Hn : linked g node_name n) by (apply Hl; left).
assert (ensure_neighbor n g = g) as ->.
{ unfold ensure_neighbor, Nx.has_node. destruct Hn as (_ & Hnode & _).
  by rewrite bool_decide_eq_true_2. }
rewrite add_edge_again by done. apply IH. intros m Hm. apply Hl. by right.
Qed.

Lemma inserted_graph_again node_name node_type neighbors g :
  let g' := inserted_graph node_name node_type neighbors g in
  inserted_graph node_name node_type neighbors g' = g'.
Proof.
cbv zeta. set (g' := inserted_graph node_name node_type neighbors g).
assert (Hty : Nx.node_attr g' node_name "type" = Some node_type)
  by apply inserted_graph_type.
unfold Nx.node_attr in Hty.
destruct (Nx.g_node g' !! node_name) as [d|] eqn:Hd; [simpl in Hty|done].
assert (Hnode : Nx.add_node node_name {["type" := node_type]} g' = g').
{ unfold Nx.add_node. rewrite Hd.
  rewrite <- insert_union_singleton_l, (insert_id d) by done.
  rewrite insert_id by done. by destruct g'. }
unfold inserted_graph at 1. rewrite Hnode.
apply connect_neighbors_again. intros n Hn.
by apply connect_neighbors_links.
Qed.

(** X10.  Inserting the same node with the same type and the same neighbours
    once more leaves the graph as the first call left it: no node and no
    edge is added and no attribute changes, however the two calls end. *)
Theorem reinsert_leaves_graph node_name node_type neighbors w :
  node_type ∈ ["job"; "skill"; "company"] →
  let w1 := (add_node_with_neighbors node_name node_type neighbors w).2 in
  let w2 := (add_node_with_neighbors node_name node_type neighbors w1).2 in
  G w2 = G w1.
Proof.
intros Hty. cbv zeta.
destruct (add_node_with_neighbors_memory node_name node_type neighbors
            (add_node_with_neighbors node_name node_type neighbors w).2 Hty)
  as [-> _].
destruct (add_node_with_neighbors_memory node_name node_type neighbors w Hty)
  as [-> _].
apply inserted_graph_again.
Qed.

(** X11.  The log is not a set: each call that returns appends its entry,
    also when the node was inserted before. *)
Theorem reinsert_logs_again node_name node_type neighbors w :
  let r1 := add_node_with_neighbors node_name node_type neighbors w in
  let r2 := add_node_with_neighbors node_name node_type neighbors r1.2 in
  succeeded r1 = true → succeeded r2 = true →
  ∃ log, log_file w = Some log ∧
         log_file r2.2
         = Some (log ++ [(node_name, node_type); (node_name, node_type)]).
Proof.
cbv zeta.
destruct (add_node_with_neighbors node_name node_type neighbors w)
  as [[[]|e1] w1] eqn:Hrun1; [|done]. simpl.
destruct (add_node_with_neighbors node_name node_type neighbors w1)
  as [[[]|e2] w2] eqn:Hrun2; [|done]. simpl. intros _ _.
apply add_node_with_neighbors_Ok in Hrun2 as (vec2 & log2 & fs2 & _ & _ & Hlog2 & ->).
apply add_node_with_neighbors_Ok in Hrun1 as (vec1 & log1 & fs1 & _ & _ & Hlog1 & ->).
simpl in Hlog2. injection Hlog2 as <-. exists log1. split; [done|]. simpl.
by rewrite <- app_assoc.
Qed.

(** ** The attributes of the rebuilt nodes *)

Lemma add_edge_node_present g u v a :
  is_Some (Nx.g_node g !! u) → is_Some (Nx.g_node g !! v) →
  Nx.g_node (Nx.add_edge u v a g) = Nx.g_node g.
Proof.
intros Hu Hv. unfold Nx.add_edge. simpl.
by rewrite (touch_present g u), (touch_present g v).
Qed.

(** The nodes after one step of the rebuild: the node [v] has the
    attributes given, over those it had. *)
Lemma link_node g u v na ea m :
  is_Some (Nx.g_node g !! u) →
  Nx.g_node (Nx.add_edge u v ea (Nx.add_node v na g)) !! m
  = if decide (m = v) then Some (na ∪ default ∅ (Nx.g_node g !! v))
    else Nx.g_node g !! m.
Proof.
intros [du Hu]. rewrite add_edge_node_present.
- case_decide as Hm; [subst; apply add_node_node_eq|]. by rewrite add_node_node_ne.
- destruct (decide (v = u)) as [->|Hne]; [rewrite add_node_node_eq; eauto|].
  rewrite add_node_node_ne by done. eauto.
- rewrite add_node_node_eq. eauto.
Qed.

Lemma named_nodes_step g u v na ea :
  named_nodes g → is_Some (Nx.g_node g !! u) →
  (∀ c, v = "company_" +:+ c → na = {["type" := "company"; "name" := c]}) →
  (∀ s, v = skill_node s → na = {["type" := "skill"; "name" := s]}) →
  named_nodes (Nx.add_edge u v ea (Nx.add_node v na g)).
Proof.
intros Hg Hu Hc Hs x d. rewrite link_node by done.
case_decide as Hx; [|apply Hg]. subst x. intros [= <-].
destruct (Nx.g_node g !! v) as [old|] eqn:Hold; simpl.
- destruct (Hg v old Hold) as [Hoc Hos]. split.
  + intros c Hv. rewrite (Hoc c Hv), (Hc c Hv). by rewrite (idemp_L (∪)).
  + intros s' Hv. rewrite (Hos s' Hv), (Hs s' Hv). by rewrite (idemp_L (∪)).
- rewrite (right_id_L ∅ (∪)). split; [apply Hc | apply Hs].
Qed.

Lemma add_skills_nodes job skills g :
  named_nodes g → is_Some (Nx.g_node g !! job) →
  let g' := foldl (add_skill job) g skills in
  named_nodes g' ∧
  (∀ m, is_Some (Nx.g_node g !! m) → is_Some (Nx.g_node g' !! m)) ∧
  (∀ m, prefix_type m = Some "job" → Nx.g_node g' !! m = Nx.g_node g !! m).
Proof.
revert g. induction skills as [|s ss IH]; intros g Hg Hjob; cbv zeta; simpl.
- done.
- assert (Hstep : ∀ m, Nx.g_node (add_skill job g s) !! m
                       = if decide (m = skill_node (Py.strip s))
                         then Some ({["type" := "skill"; "name" := Py.strip s]}
                                    ∪ default ∅ (Nx.g_node g !! skill_node (Py.strip s)))
                         else Nx.g_node g !! m).
  { intros m. unfold add_skill. cbv zeta. by apply link_node. }
  assert (Hkeep : ∀ m, is_Some (Nx.g_node g !! m)
                       → is_Some (Nx.g_node (add_skill job g s) !! m)).
  { intros m Hm. rewrite Hstep. case_decide; eauto. }
  destruct (IH (add_skill job g s)) as (Hg' & Hkeep' & Hjobs').
  + unfold add_skill. cbv zeta. apply named_nodes_step; [done..| |].
    * intros c Hc. done.
    * intros s' Hs'. apply append_inj in Hs'. by subst.
  + by apply Hkeep.
  + split; [done|]. split; [eauto|].
    intros m Hm. rewrite Hjobs', Hstep by done. rewrite decide_False; [done|].
    intros ->. unfold skill_node in Hm. by rewrite prefix_type_skill in Hm.
Qed.

Lemma add_row_nodes g row :
  named_nodes g →
  let g' := add_row g row in
  named_nodes g' ∧
  Nx.g_node g' !! job_node row
  = Some ({["type" := "job"; "title" := title row; "company" := company row]}
          ∪ default ∅ (Nx.g_node g !! job_node row)) ∧
  (∀ m, prefix_type m = Some "job" → m ≠ job_node row →
        Nx.g_node g' !! m = Nx.g_node g !! m).
Proof.
intros Hg. cbv zeta. unfold add_row. fold (job_node row) (company_node row).
set (ja := {["type" := "job"; "title" := title row; "company" := company row]}).
set (g0 := Nx.add_node (job_node row) ja g).
assert (Hg0 : named_nodes g0).
{ intros x d. unfold g0. destruct (decide (job_node row = x)) as [<-|Hne].
  - intros _. split; intros y Hy; done.
  - rewrite add_node_node_ne by done. apply Hg. }
assert (Hjob0 : Nx.g_node g0 !! job_node row
                = Some (ja ∪ default ∅ (Nx.g_node g !! job_node row)))
  by apply add_node_node_eq.
set (g1 := Nx.add_edge (job_node row) (company_node row) _ _).
assert (Hnode1 : ∀ m, Nx.g_node g1 !! m
                      = if decide (m = company_node row)
                        then Some ({["type" := "company"; "name" := company row]}
                                   ∪ default ∅ (Nx.g_node g0 !! company_node row))
                        else Nx.g_node g0 !! m).
{ intros m. unfold g1. apply link_node. rewrite Hjob0. eauto. }
assert (Hg1 : named_nodes g1).
{ unfold g1. apply named_nodes_step; [done|rewrite Hjob0; eauto| |].
  - intros c Hc. apply append_inj in Hc. by subst.
  - intros s Hs. done. }
assert (Hjob1 : Nx.g_node g1 !! job_node row
                = Some (ja ∪ default ∅ (Nx.g_node g !! job_node row))).
{ rewrite Hnode1. by rewrite decide_False. }
destruct (add_skills_nodes (job_node row) (Py.split "," (required_skills row)) g1 Hg1)
  as (Hg' & _ & Hjobs'); [rewrite Hjob1; eauto|].
split; [done|]. split.
- rewrite Hjobs' by apply prefix_type_job. done.
- intros m Hm Hne. rewrite Hjobs', Hnode1 by done.
  rewrite decide_False.
  + unfold g0. by rewrite add_node_node_ne.
  + intros ->. unfold company_node in Hm. by rewrite prefix_type_company in Hm.
Qed.

(** X12.  In the rebuilt graph a company node carries its type and, as its
    name, the company, and a skill node its type and, as its name, the
    stripped skill; and when the job ids of the dataset are distinct, a job
    node carries its type and the title and the company of its row.
    Nodes carry nothing else. *)
Theorem rebuilt_nodes_carry_their_row rows row :
  row ∈ rows →
  let g := build_graph rows in
  Nx.g_node g !! company_node row
  = Some {["type" := "company"; "name" := company row]} ∧
  (∀ s, s ∈ skills_of row →
        Nx.g_node g !! skill_node s = Some {["type" := "skill"; "name" := s]}) ∧
  (NoDup (job_id <$> rows) →
   Nx.g_node g !! job_node row
   = Some {["type" := "job"; "title" := title row; "company" := company row]}).
Proof.
intros Hrow. cbv zeta.
assert (Hnamed : named_nodes (build_graph rows)).
{ unfold build_graph.
  assert (H : ∀ g, named_nodes g → named_nodes (foldl add_row g rows)).
  { clear Hrow. induction rows as [|r rs IH]; intros g Hg; simpl; [done|].
    apply IH. by apply add_row_nodes. }
  apply H. intros x d. unfold Nx.empty. simpl. by rewrite lookup_empty. }
assert (Hdom : ∀ x, x ∈ dataset_nodes rows
                    → ∃ d, Nx.g_node (build_graph rows) !! x = Some d).
{ intros x Hx. rewrite <- build_graph_nodes in Hx. by apply elem_of_dom in Hx. }
split; [|split].
- destruct (Hdom (company_node row)) as [d Hd].
  { unfold dataset_nodes. apply elem_of_union_l, elem_of_union_r.
    apply elem_of_list_to_set. by apply list_elem_of_fmap_2. }
  rewrite Hd. f_equal. by apply (Hnamed _ _ Hd).
- intros s Hs. destruct (Hdom (skill_node s)) as [d Hd].
  { unfold dataset_nodes. apply elem_of_union_r.
    apply elem_of_list_to_set, list_elem_of_fmap_2.
    apply list_elem_of_bind. eauto. }
  rewrite Hd. f_equal. by apply (Hnamed _ _ Hd).
- clear Hnamed Hdom. revert Hrow.
  induction rows as [|r rs IH] using rev_ind; intros Hrow Hnd.
  + by apply elem_of_nil in Hrow.
  + rewrite fmap_app in Hnd. apply NoDup_app in Hnd as (Hnd & Hnew & _).
    unfold build_graph. rewrite foldl_snoc. fold (build_graph rs).
    assert (Hid : job_id r ∉ job_id <$> rs).
    { intros Hin. apply (Hnew _ Hin). by apply list_elem_of_singleton. }
    assert (Hnamed : named_nodes (build_graph rs)).
    { unfold build_graph.
      assert (H : ∀ l g, named_nodes g → named_nodes (foldl add_row g l)).
      { induction l as [|r' l IHl]; intros g Hg; simpl; [done|].
        apply IHl. by apply add_row_nodes. }
      apply H. intros x d. unfold Nx.empty. simpl. by rewrite lookup_empty. }
    destruct (add_row_nodes (build_graph rs) r Hnamed) as (_ & Hjob & Hoth).
    apply elem_of_app in Hrow as [Hrow | ->%list_elem_of_singleton].
    * rewrite Hoth; [by apply IH|apply prefix_type_job|].
      intros Heq. apply append_inj in Heq. apply Hid. rewrite <- Heq.
      by apply list_elem_of_fmap_2.
    * rewrite Hjob.
      assert (Nx.g_node (build_graph rs) !! job_node r = None) as ->.
      { apply not_elem_of_dom. rewrite build_graph_nodes. by apply job_node_fresh. }
      simpl. by rewrite (right_id_L ∅ (∪)).
Qed.

(** ** The edges of the rebuilt graph *)

Lemma job_edges_step g u v na ea :
  simple g → job_edges_only g → is_Some (Nx.g_node g !! u) →
  prefix_type u = Some "job" → prefix_type v ≠ Some "job" →
  job_edges_only (Nx.add_edge u v ea (Nx.add_node v na g)).
Proof.
intros Hg Hedges Hu Hpu Hpv.
assert (Hne : u ≠ v) by (intros ->; congruence).
destruct (link_step g u v na ea Hg Hu Hne) as (_ & _ & Hadj & _).
intros x y. rewrite Hadj. pose proof (Hedges x y) as Hxy.
repeat case_decide; subst; rewrite ?dom_insert_L; auto;
  intros [->%elem_of_singleton | Hy]%elem_of_union; auto.
Qed.

Lemma add_row_job_edges g row :
  simple g → job_edges_only g →
  simple (add_row g row) ∧ job_edges_only (add_row g row).
Proof.
intros Hg Hedges. unfold add_row. fold (job_node row) (company_node row).
set (g0 := Nx.add_node (job_node row) _ g).
assert (Hg0 : simple g0) by by apply add_node_simple.
assert (He0 : job_edges_only g0).
{ intros x y. unfold g0. rewrite add_node_adj_of by done. apply Hedges. }
assert (Hjob0 : is_Some (Nx.g_node g0 !! job_node row))
  by (unfold g0; rewrite add_node_node_eq; eauto).
set (g1 := Nx.add_edge (job_node row) (company_node row) _ _).
assert (H1 : simple g1 ∧ job_edges_only g1 ∧ is_Some (Nx.g_node g1 !! job_node row)).
{ unfold g1. split; [|split].
  - by apply link_step.
  - by apply job_edges_step.
  - by apply link_step. }
clearbody g1. clear -H1. revert g1 H1.
induction (Py.split "," (required_skills row)) as [|s ss IH];
  intros g1 (Hg1 & He1 & Hjob1); simpl; [done|].
apply IH. unfold add_skill. cbv zeta. split; [|split].
- by apply link_step.
- by apply job_edges_step.
- by apply link_step.
Qed.

(** X13.  Every edge of a rebuilt graph joins a job node and a company or
    skill node: the graph has no edge between two jobs, nor between nodes
    none of which is a job. *)
Theorem rebuilt_edges_join_jobs rows u v :
  Nx.has_edge (build_graph rows) u v = true →
  (prefix_type u = Some "job" ∧ prefix_type v ≠ Some "job") ∨
  (prefix_type v = Some "job" ∧ prefix_type u ≠ Some "job").
Proof.
assert (H : simple (build_graph rows) ∧ job_edges_only (build_graph rows)).
{ unfold build_graph.
  assert (Hfold : ∀ g, simple g → job_edges_only g →
                       simple (foldl add_row g rows)
                       ∧ job_edges_only (foldl add_row g rows)).
  { induction rows as [|r rs IH]; intros g Hg He; simpl; [done|].
    destruct (add_row_job_edges g r Hg He). by apply IH. }
  apply Hfold; [apply simple_empty|].
  intros x y. unfold Nx.adj_of, Nx.empty. simpl. rewrite lookup_empty. simpl.
  by rewrite dom_empty_L. }
destruct H as [_ He]. unfold Nx.has_edge. intros Hedge.
apply bool_decide_eq_true, elem_of_dom in Hedge. by apply He.
Qed.

(** ** The skills of a row *)

Lemma split_not_nil sep s : Py.split sep s ≠ [].
Proof. destruct s as [|c r]; simpl; [done|]. repeat case_match; done. Qed.

Lemma join_cons sep f fields :
  fields ≠ [] → join sep (f :: fields) = f +:+ String sep (join sep fields).
Proof. by destruct fields. Qed.

(** X14.  Splitting loses nothing: joining the fields with the separator
    gives the string back, there is one field more than separators, and no
    field contains the separator. *)
Theorem split_fields sep s :
  join sep (Py.split sep s) = s ∧
  length (Py.split sep s) = S (occurrences sep s) ∧
  Forall (λ f, occurrences sep f = 0) (Py.split sep s).
Proof.
induction s as [|c r (IHj & IHl & IHf)]; simpl.
- repeat split. by repeat constructor.
- destruct (Ascii.eqb c sep) eqn:Hc.
  + apply Ascii.eqb_eq in Hc as ->. split; [|split].
    * rewrite join_cons by apply split_not_nil. simpl. by rewrite IHj.
    * simpl. by rewrite IHl.
    * by constructor.
  + destruct (Py.split sep r) as [|f fs] eqn:Hsplit; [by apply split_not_nil in Hsplit|].
    split; [|split].
    * rewrite <- IHj. by destruct fs.
    * simpl in *. lia.
    * apply Forall_cons in IHf as [Hf Hfs]. constructor; [|done].
      simpl. by rewrite Hc.
Qed.











(** ** The start of the module *)

(** X17.  The start never fails in loading and never writes a snapshot file.
    The store it leaves in the memory is the snapshot when both files
    load and is empty otherwise, also when only one of them is missing.
    When the log file exists it is left alone; when it does not, it is
    created empty, and this write is the only thing that can fail. *)
Theorem start_loads_or_starts_empty log_exists w :
  let r := start log_exists w in
  (G r.2, embeddings r.2)
  = match kg_file w, emb_file w with
    | Some g, Some e => (g, e)
    | _, _ => (Nx.empty, ∅)
    end ∧
  kg_file r.2 = kg_file w ∧ emb_file r.2 = emb_file w ∧
  (log_exists = true → r.1 = Ok tt ∧ log_file r.2 = log_file w) ∧
  (log_exists = false → r.1 = Ok tt → log_file r.2 = Some []) ∧
  (r.1 ≠ Ok tt → r.1 = Raise (OSError NEW_NODES_FILE)).
Proof.
cbv zeta. unfold start, load_store, init_log, mbind, M_bind, bind, modify.
destruct w as [g e kf ef lf jc rn fl]. simpl.
destruct log_exists; simpl.
- destruct kf, ef; simpl; repeat split; done.
- unfold dump_log, write_file.
  destruct kf, ef, fl as [|[] fs]; simpl; repeat split; done.
Qed.

End Further.

(** * The further properties at work *)

Lemma insert_returns_witness :
  succeeded (add_node_with_neighbors (L := sample_libraries)
               "job_42" "job" ["skill_Go"] fresh_world) = true.
Proof.
apply (insert_returns (L := sample_libraries) "job_42" "job" ["skill_Go"] 32 fresh_world).
- apply elem_of_cons. by left.
- eexists. reflexivity.
- reflexivity.
- apply map_Forall_empty.
Defined.


Lemma restart_restores_store_witness :
  let op := add_node_with_neighbors (L := sample_libraries)
              "job_42" "job" ["skill_Go"] in
  load_store (op fresh_world).2 = (Ok tt, (op fresh_world).2).
Proof.
apply (restart_restores_store (L := sample_libraries)).
- left. by exists "job_42", "job", ["skill_Go"].
- vm_compute. reflexivity.
Defined.

Lemma restart_after_torn_snapshot_witness :
  let r := add_node_with_neighbors (L := sample_libraries) "job_1" "job" []
             (saved_world [IoOk; IoOk; IoFailWrite]) in
  let w' := (load_store r.2).2 in
  r.1 = Raise (OSError EMBEDDINGS_FILE) ∧ G w' = Nx.empty ∧ embeddings w' = ∅.
Proof.
apply (restart_after_torn_snapshot (L := sample_libraries) "job_1" "job" [] 32
         (saved_world [IoOk; IoOk; IoFailWrite]) IoFailWrite [] ∅).
- apply elem_of_cons. by left.
- eexists. reflexivity.
- apply map_Forall_empty.
- reflexivity.
- reflexivity.
- discriminate.
Defined.


Lemma insert_with_ragged_embeddings_witness :
  let r := add_node_with_neighbors (L := sample_libraries)
             "job_1" "job" ["skill_Go"; "skill_Rust"] ragged_world in
  r.1 = Raise (ValueError "inhomogeneous shape") ∧
  G r.2 = inserted_graph "job_1" "job" ["skill_Go"; "skill_Rust"] (G ragged_world) ∧
  embeddings r.2 = embeddings ragged_world ∧
  log_file r.2 = log_file ragged_world ∧ kg_file r.2 = kg_file ragged_world ∧
  emb_file r.2 = emb_file ragged_world.
Proof.
apply (insert_with_ragged_embeddings (L := sample_libraries)
         "job_1" "job" ["skill_Go"; "skill_Rust"] "skill_Go" "skill_Rust"
         [1%float; 2%float] [4%float] ragged_world).
- apply elem_of_cons. by left.
- apply elem_of_cons. by left.
- apply elem_of_cons. right. apply elem_of_cons. by left.
- vm_compute. reflexivity.
- vm_compute. reflexivity.
- simpl. lia.
Defined.

Lemma generator_is_used_for_cold_starts_only_witness :
  let w' := (add_node_with_neighbors (L := sample_libraries)
               "job_42" "job" ["skill_Go"] fresh_world).2 in
  ((∀ n, n ∈ ["skill_Go"] → get_embedding fresh_world n = None) →
     get_embedding w' "job_42"
     = Some (np_random_normal (Libraries := sample_libraries) (rng fresh_world) 32) ∧
     rng w' = S (rng fresh_world)) ∧
  ((∃ n, n ∈ ["skill_Go"] ∧ is_Some (get_embedding fresh_world n)) →
     rng w' = rng fresh_world).
Proof.
apply (generator_is_used_for_cold_starts_only (L := sample_libraries)
         "job_42" "job" ["skill_Go"] fresh_world).
vm_compute. reflexivity.
Defined.

Lemma failed_rebuild_keeps_memory_witness :
  let w := world_with_jobs three_jobs (saved_world [IoOk; IoFailOpen]) in
  let w' := (nightly_retrain (L := sample_libraries) w).2 in
  G w' = G w ∧ embeddings w' = embeddings w ∧ log_file w' = log_file w.
Proof.
apply (failed_rebuild_keeps_memory (L := sample_libraries)
         (world_with_jobs three_jobs (saved_world [IoOk; IoFailOpen]))
         (OSError EMBEDDINGS_FILE)).
- vm_compute. reflexivity.
- discriminate.
Defined.

Lemma insert_touches_node_and_neighbors_only_witness :
  let w' := (add_node_with_neighbors (L := sample_libraries)
               "job_42" "job" ["skill_Go"] skilled_world).2 in
  (∀ m, is_Some (get_node w' m)
        ↔ m = "job_42" ∨ m ∈ ["skill_Go"] ∨ is_Some (get_node skilled_world m)) ∧
  (∀ m, m ≠ "job_42" → is_Some (get_node skilled_world m) →
        get_node w' m = get_node skilled_world m).
Proof.
apply (insert_touches_node_and_neighbors_only (L := sample_libraries)
         "job_42" "job" ["skill_Go"] skilled_world).
apply elem_of_cons. by left.
Defined.

Lemma reinsert_leaves_graph_witness :
  let w1 := (add_node_with_neighbors (L := sample_libraries)
               "job_42" "job" ["skill_Go"; "golang"] fresh_world).2 in
  let w2 := (add_node_with_neighbors (L := sample_libraries)
               "job_42" "job" ["skill_Go"; "golang"] w1).2 in
  G w2 = G w1.
Proof.
apply (reinsert_leaves_graph (L := sample_libraries)
         "job_42" "job" ["skill_Go"; "golang"] fresh_world).
apply elem_of_cons. by left.
Defined.

Lemma reinsert_logs_again_witness :
  let r1 := add_node_with_neighbors (L := sample_libraries)
              "job_42" "job" ["skill_Go"] fresh_world in
  let r2 := add_node_with_neighbors (L := sample_libraries)
              "job_42" "job" ["skill_Go"] r1.2 in
  ∃ log, log_file fresh_world = Some log ∧
         log_file r2.2 = Some (log ++ [("job_42", "job"); ("job_42", "job")]).
Proof.
apply (reinsert_logs_again (L := sample_libraries)
         "job_42" "job" ["skill_Go"] fresh_world); vm_compute; reflexivity.
Defined.

Lemma rebuilt_nodes_carry_their_row_witness :
  let row := mkJobRow "1" "Backend developer" "Acme" "Go, Rust" in
  let g := build_graph three_jobs in
  Nx.g_node g !! company_node row = Some {["type" := "company"; "name" := "Acme"]} ∧
  (∀ s, s ∈ skills_of row →
        Nx.g_node g !! skill_node s = Some {["type" := "skill"; "name" := s]}) ∧
  (NoDup (job_id <$> three_jobs) →
   Nx.g_node g !! job_node row
   = Some {["type" := "job"; "title" := "Backend developer"; "company" := "Acme"]}).
Proof.
apply (rebuilt_nodes_carry_their_row three_jobs
         (mkJobRow "1" "Backend developer" "Acme" "Go, Rust")).
apply elem_of_cons. by left.
Defined.

Lemma rebuilt_edges_join_jobs_witness :
  (prefix_type "job_1" = Some "job" ∧ prefix_type "company_Acme" ≠ Some "job") ∨
  (prefix_type "company_Acme" = Some "job" ∧ prefix_type "job_1" ≠ Some "job").
Proof.
apply (rebuilt_edges_join_jobs three_jobs "job_1" "company_Acme").
vm_compute. reflexivity.
Defined.

